(** * PIL3K: the ICO and IPTC/NAA image plugins

    A shallow embedding of [IcoImagePlugin.py] and [IptcImagePlugin.py].

    Python values are modelled the way the two plugins use them:
    - a [bytes] object is a list of integers (each element of a well-formed
      object lies in 0..255); indexing out of range raises [IndexError],
      slicing clips;
    - a file object is a byte list and a cursor;
    - a method of an image object is a function in a state-and-exception
      monad over the attributes of the object.  A raised exception keeps the
      state reached so far, as attribute assignments made before a [raise]
      stay visible to whoever catches it. *)

From Stdlib Require Import ZArith List Lia String Ascii.
From stdpp Require Import base option list gmap strings pretty.
Import ListNotations.

Local Open Scope Z_scope.

(** ** Python values shared by both plugins *)

Module Py.

Definition bytes := list Z.

(** The exceptions the plugins raise or catch.  [OutOfFuel] is not a Python
    exception: a [while] loop is modelled by recursion on a bound, and
    [OutOfFuel] stands for a bound that was too small.  The bounds used
    below are shown to be large enough. *)
Inductive exn :=
| SyntaxError (msg : string)
| IOError (msg : string)
| IndexError
| KeyError
| TypeError
| ValueError
| AttributeError
| OutOfFuel.

Inductive result (A : Type) :=
| Ok (a : A)
| Raise (e : exn).
Arguments Ok {A} a.
Arguments Raise {A} e.

Definition rbind {A B} (r : result A) (k : A -> result B) : result B :=
  match r with
  | Ok a => k a
  | Raise e => Raise e
  end.

(** [c[k]] on a bytes object, [k] a non-negative literal. *)
Definition getitem (c : bytes) (k : nat) : result Z :=
  match c !! k with
  | Some x => Ok x
  | None => Raise IndexError
  end.

(** [c[a:b]] for [0 <= a]; an empty slice when [b <= a]. *)
Definition slice (c : bytes) (a b : nat) : bytes := take (b - a) (drop a c).

(** [a == b] on bytes objects. *)
Definition bytes_eqb (a b : bytes) : bool := bool_decide (a = b).

(** A binary file object: its content and the cursor. *)
Record stream := Stream { s_data : bytes; s_pos : nat }.

(** [fp.read(n)]: at most [n] bytes from the cursor ([n < 0] reads all),
    the cursor moves past what was read. *)
Definition read (n : Z) (fp : stream) : bytes * stream :=
  let rest := drop (s_pos fp) (s_data fp) in
  let got := if n <? 0 then rest else take (Z.to_nat n) rest in
  (got, Stream (s_data fp) (s_pos fp + length got)).

(** The bytes still unread. *)
Definition remaining (fp : stream) : bytes := drop (s_pos fp) (s_data fp).

(** State and exception monad over the attributes [S] of an object. *)
Definition M (S A : Type) : Type := S -> result A * S.

Definition ret {S A} (a : A) : M S A := fun st => (Ok a, st).
Definition raise {S A} (e : exn) : M S A := fun st => (Raise e, st).
Definition bind {S A B} (m : M S A) (k : A -> M S B) : M S B :=
  fun st =>
    match m st with
    | (Ok a, st') => k a st'
    | (Raise e, st') => (Raise e, st')
    end.
Definition lift {S A} (r : result A) : M S A := fun st => (r, st).
Definition gets {S A} (f : S -> A) : M S A := fun st => (Ok (f st), st).
Definition modify {S} (f : S -> S) : M S unit := fun st => (Ok tt, f st).

(** [try: m] followed by [except E: h], where [catches] tells the
    exceptions that [E] names. *)
Definition try_except {S A} (m : M S A) (catches : exn -> bool) (h : M S A)
    : M S A :=
  fun st =>
    match m st with
    | (Raise e, st') => if catches e then h st' else (Raise e, st')
    | r => r
    end.

End Py.

Import Py.

#[global] Instance result_ret : MRet result := fun A a => Ok a.
#[global] Instance result_bind : MBind result := fun A B k r => rbind r k.
#[global] Instance M_ret {S} : MRet (M S) := fun A a => ret a.
#[global] Instance M_bind {S} : MBind (M S) := fun A B k m => bind m k.

(** ** IcoImagePlugin.py *)

Module Ico.

(** [i16] and [i32] read little-endian from the start of [c]. *)
Definition i16 (c : bytes) : result Z :=
  rbind (getitem c 0) (fun c0 =>
  rbind (getitem c 1) (fun c1 =>
  Ok (c0 + Z.shiftl c1 8))).

Definition i32 (c : bytes) : result Z :=
  rbind (getitem c 0) (fun c0 =>
  rbind (getitem c 1) (fun c1 =>
  rbind (getitem c 2) (fun c2 =>
  rbind (getitem c 3) (fun c3 =>
  Ok (c0 + Z.shiftl c1 8 + Z.shiftl c2 16 + Z.shiftl c3 24))))).

Definition _accept (prefix : bytes) : bool :=
  bytes_eqb (take 4 prefix) [0; 0; 1; 0].

Section WithBitmap.

(** The fourth component of a tile descriptor belongs to the bitmap
    decoder; the plugin only passes it along. *)
Context {targs : Type}.

(** A tile descriptor [(d, e, o, a)]: decoder name, extents, offset,
    decoder arguments. *)
Definition tile_t : Type := string * (Z * Z * Z * Z) * Z * targs.

(** The attributes of an [IcoImageFile] that [_open] touches. *)
Record image := Image {
  fp : stream;
  size : Z * Z;
  tile : list tile_t
}.

Definition set_fp (f : stream) (im : image) : image :=
  Image f (size im) (tile im).
Definition set_size (s : Z * Z) (im : image) : image :=
  Image (fp im) s (tile im).
Definition set_tile (t : list tile_t) (im : image) : image :=
  Image (fp im) (size im) t.

Definition fp_read (n : Z) : M image bytes :=
  fun im => let '(got, f) := read n (fp im) in (Ok got, set_fp f im).

(** [BmpImageFile._bitmap], inherited from the bitmap plugin: it decodes
    the bitmap header found at the given position and sets [size] and
    [tile], or raises. *)
Variable _bitmap : Z -> M image unit.

(** One turn of the loop over the directory: read an entry, keep it when
    nothing is selected yet or when it is larger in both directions. *)
Definition pick_step (m : bytes) : M image bytes :=
  s ← fp_read 16;
  match m with
  | [] => ret s
  | _ =>
    s0 ← lift (getitem s 0);
    m0 ← lift (getitem m 0);
    if s0 >? m0 then
      (s1 ← lift (getitem s 1);
       m1 ← lift (getitem m 1);
       if s1 >? m1 then ret s else ret m)
    else ret m
  end.

(** [for i in range(n)] around [pick_step]. *)
Fixpoint pick (n : nat) (m : bytes) : M image bytes :=
  match n with
  | O => ret m
  | S n' => m' ← pick_step m; pick n' m'
  end.

(** [(0,0)+self.size] *)
Definition extents_of (sz : Z * Z) : Z * Z * Z * Z := (0, 0, sz.1, sz.2).

(** [self.tile[0] = d, (0,0)+self.size, o, a] after [d, e, o, a = self.tile[0]] *)
Definition patch_tile : M image unit :=
  ts ← gets tile;
  match ts with
  | [] => raise IndexError
  | (d, e, o, a) :: rest =>
    sz ← gets size;
    modify (set_tile ((d, extents_of sz, o, a) :: rest))
  end.

(** The first half of [_open]: "check magic" and "pick the largest icon
    in the file", up to the argument [i32(m[12:])] of [_bitmap]. *)
Definition read_directory : M image Z :=
  s ← fp_read 6;
  if negb (_accept s) then raise (SyntaxError "not an ICO file") else
  n ← lift (i16 (drop 4 s));
  m ← pick (Z.to_nat n) [];
  lift (i32 (drop 12 m)).

(** "patch up the bitmap height" *)
Definition patch_height : M image unit :=
  sz ← gets size;
  modify (set_size (sz.1, sz.2 `div` 2));;
  patch_tile.

Definition _open : M image unit :=
  off ← read_directory;
  (* load as bitmap *)
  _bitmap off;;
  patch_height.

End WithBitmap.

Arguments image : clear implicits.
Arguments tile_t : clear implicits.

End Ico.

(** ** IptcImagePlugin.py *)

Module Iptc.

(** The values the plugin stores in [info] and passes to its helpers:
    [None], an integer, a bytes object, or a list. *)
#[warnings="-register-all"] Inductive value :=
| VNone
| VInt (n : Z)
| VBytes (b : bytes)
| VList (l : list value).

(** A tag is the pair [(s[1], s[2])] of record and dataset number. *)
Definition tag_t : Type := Z * Z.

(** [COMPRESSION = {1: "raw", 5: "jpeg"}] *)
Definition COMPRESSION : gmap Z string := <[1 := "raw"%string]> (<[5 := "jpeg"%string]> ∅).

(** [PAD = b'x00' * 4]: the literal has no backslash, so this is the
    twelve characters [x00x00x00x00] and not four zero bytes. *)
Definition PAD : bytes := concat (replicate 4 [120; 48; 48]).

(** [i16] and [i32] read big-endian from the start of [c]. *)
Definition i16 (c : bytes) : result Z :=
  c1 ← getitem c 1;
  c0 ← getitem c 0;
  Ok (c1 + Z.shiftl c0 8).

Definition i32 (c : bytes) : result Z :=
  c3 ← getitem c 3;
  c2 ← getitem c 2;
  c1 ← getitem c 1;
  c0 ← getitem c 0;
  Ok (c3 + Z.shiftl c2 8 + Z.shiftl c1 16 + Z.shiftl c0 24).

(** [bytes((c,))]: the constructor is given a one-element tuple and wants
    every element to be an integer in [range(256)]; any other element is a
    [TypeError], an integer out of range a [ValueError]. *)
Definition bytes_of_1tuple (c : value) : result bytes :=
  match c with
  | VInt n => if (0 <=? n) && (n <? 256) then Ok [n] else Raise ValueError
  | _ => Raise TypeError
  end.

(** [x[-4:]] *)
Definition last4 (x : bytes) : bytes := drop (length x - 4) x.

(** [i(c)].  The source line, [return i32((PAD + bytes((c,))[-4:])], is one
    closing parenthesis short; it is read with the parenthesis where the
    expression it was ported from has it, [i32((PAD + bytes((c,)))[-4:])].
    With the parenthesis one place later the slice would apply to
    [bytes((c,))] alone; [bytes((c,))] is evaluated first either way. *)
Definition i (c : value) : result Z :=
  b ← bytes_of_1tuple c;
  i32 (last4 (PAD ++ b)).

(** A tile descriptor of this plugin is [(name, args, box)].  [_open]
    builds the name from a [str] literal, [load] compares it with a
    [bytes] literal, and in Python 3 a [str] never equals a [bytes]. *)
Inductive pystr :=
| Str (s : string)
| Bytes (b : bytes).

Inductive tile_args :=
| RawArgs (offset : nat) (len : Z) (orientation : Z)
| IptcArgs (encoding : string) (offset : nat).

Definition tile_t : Type := pystr * tile_args * (Z * Z * Z * Z).

(** The image object handed back by a raster decoder ([self.im]). *)
Inductive core_image := CoreImage (pixels : bytes).

(** The attributes of an [IptcImageFile]. *)
Record image := Image {
  fp : stream;
  info : gmap tag_t value;
  mode : string;
  size : Z * Z;
  tile : list tile_t;
  im : option core_image
}.

Definition set_fp (f : stream) (s : image) : image :=
  Image f (info s) (mode s) (size s) (tile s) (im s).
Definition set_info (x : gmap tag_t value) (s : image) : image :=
  Image (fp s) x (mode s) (size s) (tile s) (im s).
Definition set_mode (m : string) (s : image) : image :=
  Image (fp s) (info s) m (size s) (tile s) (im s).
Definition set_size (z : Z * Z) (s : image) : image :=
  Image (fp s) (info s) (mode s) z (tile s) (im s).
Definition set_tile (t : list tile_t) (s : image) : image :=
  Image (fp s) (info s) (mode s) (size s) t (im s).
Definition set_im (c : core_image) (s : image) : image :=
  Image (fp s) (info s) (mode s) (size s) (tile s) (Some c).

Definition fp_read (n : Z) : M image bytes :=
  fun s => let '(got, f) := read n (fp s) in (Ok got, set_fp f s).
Definition fp_tell : M image nat := gets (fun s => s_pos (fp s)).
Definition fp_seek (offset : nat) : M image unit :=
  modify (fun s => set_fp (Stream (s_data (fp s)) offset) s).

(** [self.info[key]] *)
Definition info_get (key : tag_t) : M image value :=
  fun s =>
    match info s !! key with
    | Some v => (Ok v, s)
    | None => (Raise KeyError, s)
    end.

Definition getint (key : tag_t) : M image Z :=
  v ← info_get key;
  lift (i v).

(** [field]: the header of the next record, as [(tag, size)], or
    [(None, 0)] when nothing could be read. *)
Definition field : M image (option tag_t * Z) :=
  s ← fp_read 5;
  if (length s =? 0)%nat then ret (None, 0) else
  s1 ← lift (getitem s 1);
  s2 ← lift (getitem s 2);
  let tag := (s1, s2) in
  s0 ← lift (getitem s 0);
  if negb (s0 =? 28) || (tag.1 <? 1) || (tag.1 >? 9) then
    raise (SyntaxError "invalid IPTC/NAA file")
  else
  size ← lift (getitem s 3);
  if size >? 132 then
    raise (IOError "illegal field length in IPTC/NAA file")
  else if size =? 128 then
    ret (Some tag, 0)
  else if size >? 128 then
    ext ← fp_read (size - 128);
    size' ← lift (i (VBytes ext));
    ret (Some tag, size')
  else
    size' ← lift (i16 (drop 3 s));
    ret (Some tag, size').

(** [_is_raw] returns 0 before its body; the rest is never run. *)
Definition _is_raw (offset : nat) (size : Z * Z) : M image bool := ret false.

(** The body of [if tag in self.info.keys(): ... else: ...] in [_open]:
    a new tag stores [tagdata] itself, a tag holding a list gets
    [tagdata] appended, any other stored value [v] becomes [[v, tagdata]]. *)
Definition info_add (tag : tag_t) (tagdata : value)
    (x : gmap tag_t value) : gmap tag_t value :=
  match x !! tag with
  | Some (VList l) => <[tag := VList (l ++ [tagdata])]> x
  | Some v => <[tag := VList [v; tagdata]]> x
  | None => <[tag := tagdata]> x
  end.

(** The loop "load descriptive fields" of [_open].  It returns the
    [offset], [tag] and [size] of the turn that left it.  Every turn that
    does not leave the loop reads at least one byte, so the bound counts
    the bytes that are left. *)
Fixpoint open_fields (fuel : nat) : M image (nat * option tag_t * Z) :=
  match fuel with
  | O => raise OutOfFuel
  | S fuel' =>
    offset ← fp_tell;
    '(tag, size) ← field;
    match tag with
    | None => ret (offset, tag, size)
    | Some t =>
      if bool_decide (t = (8, 10)) then ret (offset, tag, size) else
      tagdata ← (if negb (size =? 0)
                 then b ← fp_read size; ret (VBytes b)
                 else ret VNone);
      modify (fun s => set_info (info_add t tagdata (info s)) s);;
      open_fields fuel'
    end
  end.

(** [v[k]] for a non-negative literal [k]. *)
Definition subscript (v : value) (k : nat) : result value :=
  match v with
  | VBytes b => x ← getitem b k; Ok (VInt x)
  | VList l =>
    match l !! k with
    | Some x => Ok x
    | None => Raise IndexError
    end
  | VNone | VInt _ => Raise TypeError
  end.

(** The truth value of [v], as [if v] and [not v] take it. *)
Definition truthy (v : value) : bool :=
  match v with
  | VNone => false
  | VInt n => negb (n =? 0)
  | VBytes b => negb (bool_decide (b = []))
  | VList l => negb (bool_decide (length l = 0%nat))
  end.

(** [v == n] for an integer literal [n]. *)
Definition eq_int (v : value) (n : Z) : bool :=
  match v with
  | VInt m => m =? n
  | _ => false
  end.

(** [v - n] for an integer literal [n]. *)
Definition minus_int (v : value) (n : Z) : result value :=
  match v with
  | VInt m => Ok (VInt (m - n))
  | _ => Raise TypeError
  end.

(** [s[id]] on a [str]: a negative index counts from the end. *)
Definition str_index (s : string) (id : value) : result string :=
  match id with
  | VInt k =>
    let n := Z.of_nat (String.length s) in
    let k' := if k <? 0 then k + n else k in
    if (0 <=? k') && (k' <? n) then
      match String.get (Z.to_nat k') s with
      | Some a => Ok (String a EmptyString)
      | None => Raise IndexError
      end
    else Raise IndexError
  | _ => Raise TypeError
  end.

(** [except KeyError] *)
Definition is_KeyError (e : exn) : bool :=
  match e with
  | KeyError => true
  | _ => false
  end.

(** [compression = COMPRESSION[self.getint((3,120))]] in its [try]. *)
Definition compression_of : M image string :=
  try_except
    (k ← getint (3, 120);
     match COMPRESSION !! k with
     | Some c => ret c
     | None => raise KeyError
     end)
    is_KeyError
    (raise (IOError "Unknown IPTC image compression")).

Definition box_of (sz : Z * Z) : Z * Z * Z * Z := (0, 0, sz.1, sz.2).

(** What [_open] does after the loop, from "mode" to "tile", with the
    [offset], [tag] and [size] the loop left behind ([fsize] here, as
    [size] is the attribute). *)
Definition open_attributes (offset : nat) (tag : option tag_t) (fsize : Z)
    : M image unit :=
  (* mode *)
  v ← info_get (3, 60);
  layers ← lift (subscript v 0);
  v ← info_get (3, 60);
  component ← lift (subscript v 1);
  has65 ← gets (fun s => bool_decide (is_Some (info s !! (3, 65))));
  id ← (if has65 : bool
        then v ← info_get (3, 65);
             x ← lift (subscript v 0);
             lift (minus_int x 1)
        else ret (VInt 0));
  (if eq_int layers 1 && negb (truthy component) then
     modify (set_mode "L")
   else if eq_int layers 3 && truthy component then
     m ← lift (str_index "RGB" id); modify (set_mode m)
   else if eq_int layers 4 && truthy component then
     m ← lift (str_index "CMYK" id); modify (set_mode m)
   else ret tt);;
  (* size *)
  w ← getint (3, 20);
  h ← getint (3, 30);
  modify (set_size (w, h));;
  (* compression *)
  compression ← compression_of;
  (* tile *)
  if bool_decide (tag = Some (8, 10)) then
    sz ← gets size;
    raw ← (if bool_decide (compression = "raw"%string)
           then _is_raw offset sz
           else ret false);
    if raw : bool then
      modify (set_tile [(Str compression, RawArgs offset (fsize + 5) (-1), box_of sz)])
    else
      modify (set_tile [(Str "iptc", IptcArgs compression offset, box_of sz)])
  else ret tt.

Definition _open : M image unit :=
  (* load descriptive fields *)
  left ← gets (fun s => length (remaining (fp s)));
  '(offset, tag, fsize) ← open_fields (S left);
  open_attributes offset tag fsize.

(** *** [load] *)

(** The files that exist, by name, with their content. *)
Definition files_t : Type := gmap string bytes.

(** [load] runs on the object and the file system. *)
Definition world : Type := image * files_t.

Definition self {A} (m : M image A) : M world A :=
  fun w => let '(r, s) := m w.1 in (r, (s, w.2)).

(** [o = open(outfile, "wb")] creates the file, empty.  The writer [o]
    is buffered: it is modelled by the bytes written to it that are not
    in the file yet. *)
Definition file_create (name : string) : M world unit :=
  modify (fun w => (w.1, <[name := []]> (w.2))).

(** [o.write(s)]: the bytes go to the buffer of the writer.  [load]
    never flushes; a buffer that fills up before [o.close()] is not
    modelled. *)
Definition file_write (o s : bytes) : bytes := o ++ s.

(** [o.close()]: the buffer goes to the file. *)
Definition file_close (name : string) (o : bytes) : M world unit :=
  modify (fun w => (w.1, <[name := default [] (w.2 !! name) ++ o]> (w.2))).

(** [os.unlink(outfile)] inside [try: ... except: pass]. *)
Definition file_unlink (name : string) : M world unit :=
  modify (fun w => (w.1, delete name (w.2))).

(** The decimal digits of [n] as ASCII codes. *)
Definition digits (n : Z) : bytes :=
  (fun a => Z.of_N (N_of_ascii a)) <$> list_ascii_of_string (pretty n).

(** The PPM header written for raw data: [P5], newline, width, space,
    height, newline, [255], newline, encoded as latin-1. *)
Definition ppm_header (sz : Z * Z) : bytes :=
  [80; 53; 10] ++ digits sz.1 ++ [32] ++ digits sz.2 ++ [10; 50; 53; 53; 10].

(** [b"iptc"] *)
Definition iptc_name : bytes := [105; 112; 116; 99].

Section WithOpeners.

(** What [load] calls outside this plugin. *)

(** [ImageFile.ImageFile.load(self)] *)
Variable ImageFile_load : M world unit.
(** [tempfile.mktemp()]: a file name, chosen by looking at the files
    that exist. *)
Variable mktemp : files_t -> string.
(** [Image.core.open_ppm(outfile)] *)
Variable open_ppm : string -> files_t -> result core_image.
(** [im = Image.open(outfile); im.load(); im.im] *)
Variable Image_open_load : string -> files_t -> result core_image.

(** [while size > 0: ...]: every turn that stays in the loop takes at
    least one byte off [size]. *)
Fixpoint copy_payload (fuel : nat) (o : bytes) (size : Z) : M world bytes :=
  if size >? 0 then
    match fuel with
    | O => raise OutOfFuel
    | S fuel' =>
      s ← self (fp_read (Z.min size 8192));
      if bool_decide (s = []) then ret o else
      copy_payload fuel' (file_write o s) (size - Z.of_nat (length s))
    end
  else ret o.

(** [while True: type, size = self.field() ...] *)
Fixpoint stage (fuel : nat) (o : bytes) : M world bytes :=
  match fuel with
  | O => raise OutOfFuel
  | S fuel' =>
    '(type, size) ← self field;
    if bool_decide (type = Some (8, 10)) then
      o' ← copy_payload (Z.to_nat size) o size;
      stage fuel' o'
    else ret o
  end.

(** From [self.fp.seek(offset)] to [o.close()]: the image data is copied
    to a temporary file, whose name is the result. *)
Definition stage_file (encoding : string) (offset : nat) : M world string :=
  self (fp_seek offset);;
  (* Copy image data to temporary file *)
  outfile ← gets (fun w => mktemp w.2);
  file_create outfile;;
  o ← (if bool_decide (encoding = "raw"%string)
       then sz ← self (gets size); ret (file_write [] (ppm_header sz))
       else ret []);
  left ← self (gets (fun s => length (remaining (fp s))));
  o ← stage (S left) o;
  file_close outfile o;;
  ret outfile.

(** The [try: ... finally: ...] at the end of [load]. *)
Definition decode (outfile : string) : M world unit :=
  fun w =>
    let r := match open_ppm outfile w.2 with
             | Ok c => Ok c
             | Raise _ => Image_open_load outfile w.2
             end in
    let w' := (file_unlink outfile w).2 in
    match r with
    | Ok c => (Ok tt, (set_im c w'.1, w'.2))
    | Raise e => (Raise e, w')
    end.

Definition load : M world unit :=
  ts ← self (gets tile);
  match ts with
  | [(Bytes name, args, box)] =>
    if bool_decide (name = iptc_name) then
      match args with
      | IptcArgs encoding offset =>
        outfile ← stage_file encoding offset;
        decode outfile
      | RawArgs _ _ _ => raise ValueError
      end
    else ImageFile_load
  | _ => ImageFile_load
  end.

End WithOpeners.

(** *** [getiptcinfo] *)

(** Modelled from the spec: [JpegImagePlugin.i16(c, o)] and
    [JpegImagePlugin.i32(c, o)] are not among the sources; the resource id
    is a "2-byte big-endian" and the payload size a "4-byte big-endian"
    integer at the given offset.  Reading past the end of [c] raises
    [IndexError], as indexing does. *)
Definition Jpeg_i16 (c : bytes) (o : nat) : result Z :=
  c1 ← getitem c (o + 1);
  c0 ← getitem c o;
  Ok (c1 + Z.shiftl c0 8).

Definition Jpeg_i32 (c : bytes) (o : nat) : result Z :=
  c3 ← getitem c (o + 3);
  c2 ← getitem c (o + 2);
  c1 ← getitem c (o + 1);
  c0 ← getitem c o;
  Ok (c3 + Z.shiftl c2 8 + Z.shiftl c1 16 + Z.shiftl c0 24).

(** [b"Photoshop 3.0\x00"] and [b"8BIM"] *)
Definition photoshop_sig : bytes :=
  [80; 104; 111; 116; 111; 115; 104; 111; 112; 32; 51; 46; 48; 0].
Definition bim_sig : bytes := [56; 66; 73; 77].

(** [if offset & 1: offset = offset + 1] *)
Definition even_up (offset : nat) : nat :=
  if Nat.odd offset then (offset + 1)%nat else offset.

(** [while app[offset:offset+4] == b"8BIM": ...]: the image resource
    blocks of [app], up to the one with code 0x0404.  Every turn moves
    [offset] forward, so the bound counts the bytes of [app]. *)
Fixpoint resource_blocks (fuel : nat) (app : bytes) (offset : nat)
    : result (option bytes) :=
  if bytes_eqb (slice app offset (offset + 4)) bim_sig then
    match fuel with
    | O => Raise OutOfFuel
    | S fuel' =>
      let offset := (offset + 4)%nat in
      code ← Jpeg_i16 app offset;
      let offset := (offset + 2)%nat in
      name_len ← getitem app offset;
      let offset := (1 + offset + Z.to_nat name_len)%nat in
      let offset := even_up offset in
      size ← Jpeg_i32 app offset;
      let offset := (offset + 4)%nat in
      if code =? 1028 then
        Ok (Some (slice app offset (offset + Z.to_nat size)))
      else
        let offset := (offset + Z.to_nat size)%nat in
        let offset := even_up offset in
        resource_blocks fuel' app offset
    end
  else Ok None.

(** The objects [getiptcinfo] tells apart with [isinstance].  A missing
    attribute ([AttributeError]) is [None]; a missing key ([KeyError]) is
    a missing key of the map. *)
Inductive container :=
| IptcImageFile (this : image)
| JpegImageFile (app : option (gmap string bytes))
| TiffImageFile (tagdata : option (gmap Z (Z * bytes)))
| OtherImage.

(** The [try] block of the JPEG branch: only [AttributeError] and
    [KeyError] are caught there. *)
Definition jpeg_data (app : option (gmap string bytes)) : result (option bytes) :=
  match app with
  | None => Ok None
  | Some segments =>
    match segments !! "APP13"%string with
    | None => Ok None
    | Some app =>
      if bytes_eqb (take 14 app) photoshop_sig then
        let app := drop 14 app in
        resource_blocks (S (length app)) app 0
      else Ok None
    end
  end.

Section Getiptcinfo.

(** [TiffImagePlugin.IPTC_NAA_CHUNK], a constant of the TIFF plugin. *)
Variable IPTC_NAA_CHUNK : Z.

Definition tiff_data (tagdata : option (gmap Z (Z * bytes))) : option bytes :=
  match tagdata with
  | None => None
  | Some d => snd <$> d !! IPTC_NAA_CHUNK
  end.

(** The object made "without initializing it": [info = {}] and
    [fp = io.BytesIO(data)]. *)
Definition fake_image (data : bytes) : image :=
  Image (Stream data 0) ∅ "" (0, 0) [] None.

(** [except (IndexError, KeyError)] *)
Definition is_Index_or_KeyError (e : exn) : bool :=
  match e with
  | IndexError | KeyError => true
  | _ => false
  end.

(** "parse the IPTC information chunk": [_open] in its [try], whose
    handler is [pass], then [return im.info]. *)
Definition parse_chunk (data : bytes) : result (gmap tag_t value) :=
  let '(r, s) := try_except _open is_Index_or_KeyError (ret tt)
                   (fake_image data) in
  _ ← r; Ok (info s).

(** The first half of [getiptcinfo]: the value of [data] when the
    [isinstance] chain is left, for an object that is not an
    [IptcImageFile]. *)
Definition locate (im : container) : result (option bytes) :=
  match im with
  | JpegImageFile app => jpeg_data app
  | TiffImageFile tagdata => Ok (tiff_data tagdata)
  | _ => Ok None
  end.

Definition getiptcinfo (im : container) : result (option (gmap tag_t value)) :=
  match im with
  | IptcImageFile this => Ok (Some (info this))
  | _ =>
    data ← locate im;
    match data with
    | None => Ok None
    | Some data => x ← parse_chunk data; Ok (Some x)
    end
  end.

End Getiptcinfo.

End Iptc.

(** * Definitions for the statements *)

(** ** The file object *)

(** The cursor of [f] moved [n] bytes on. *)
Definition advance (n : nat) (f : stream) : stream :=
  Stream (s_data f) (s_pos f + n).

(** ** The icon plugin *)

(** The selection rule in the words of the specification: the candidate
    [s] replaces the selected entry [m] only if its width is strictly
    greater and its height is strictly greater. *)
Definition replaces (m s : bytes) : bool :=
  match m, s with
  | mw :: mh :: _, sw :: sh :: _ => (sw >? mw) && (sh >? mh)
  | _, _ => false
  end.

(** The selection starts with the first entry and goes through the
    subsequent ones. *)
Definition selected (es : list bytes) : bytes :=
  match es with
  | [] => []
  | first :: subsequent =>
    fold_left (fun m s => if replaces m s then s else m) subsequent first
  end.

Definition ico_advance {targs} (n : nat) (im : Ico.image targs) : Ico.image targs :=
  Ico.set_fp (advance n (Ico.fp im)) im.

(** A directory entry of the given width and height: one plane, 32 bits,
    296 bytes of data at [offset]. *)
Definition ico_entry (w h offset : Z) : bytes :=
  [w; h; 0; 0; 1; 0; 32; 0; 40; 1; 0; 0; offset; 0; 0; 0].

(** An icon file object at its start. *)
Definition ico_file (content : bytes) : Ico.image unit :=
  Ico.Image (Stream content 0) (0, 0) [].

(** The two directories of the specification's examples, without the
    file header. *)
Definition ico_dir_a : list bytes :=
  [ico_entry 16 16 54; ico_entry 32 32 70; ico_entry 48 32 86].
Definition ico_dir_b : list bytes :=
  [ico_entry 16 16 54; ico_entry 32 24 70; ico_entry 48 32 86].

(** A bitmap decoder that reports a 64 by 128 bitmap in one raw tile. *)
Definition bitmap_64x128 (offset : Z) : M (Ico.image unit) unit :=
  modify (fun im =>
    Ico.Image (Ico.fp im) (64, 128)
      [("raw"%string, (0, 0, 64, 128), offset + 40, tt)]).

(** ** The IPTC plugin *)

Definition iptc_advance (n : nat) (s : Iptc.image) : Iptc.image :=
  Iptc.set_fp (advance n (Iptc.fp s)) s.

(** Streams that end inside a record header. *)
Definition short_header_2 : bytes := [28; 2].
Definition short_header_4 : bytes := [28; 2; 5; 128].

(** A record as the stream carries it: its tag and its payload. *)
Definition record_t : Type := Iptc.tag_t * bytes.

(** The short form of a record: the marker, the record and dataset
    number, the payload length as a big-endian 16-bit integer, the
    payload. *)
Definition encode_record (r : record_t) : bytes :=
  let n := Z.of_nat (length r.2) in
  [28; r.1.1; r.1.2; n `div` 256; n `mod` 256] ++ r.2.

(** The records the loop of [_open] takes for descriptive fields: a
    record number from 1 to 9, not the image data marker, a payload that
    the short form can announce. *)
Definition descriptive (r : record_t) : Prop :=
  1 <= r.1.1 <= 9 /\ r.1 <> (8, 10) /\ Z.of_nat (length r.2) < 32768.

(** What the loop keeps of a payload: [None] when there is none. *)
Definition tagdata_of (payload : bytes) : Iptc.value :=
  match payload with
  | [] => Iptc.VNone
  | _ => Iptc.VBytes payload
  end.

(** What the records of tag [t] carry, in the order of arrival. *)
Definition payloads_of (t : Iptc.tag_t) (rs : list record_t) : list Iptc.value :=
  (fun r : record_t => tagdata_of r.2) <$> filter (fun r : record_t => r.1 = t) rs.

(** The entry of the mapping in the words of the specification: nothing
    for a tag never seen, the scalar for a tag seen once, the ordered
    sequence from the second occurrence on. *)
Definition accumulated (l : list Iptc.value) : option Iptc.value :=
  match l with
  | [] => None
  | [a] => Some a
  | _ => Some (Iptc.VList l)
  end.

(** Three records of tag (2, 25) with the payloads A, B and C, and one
    record of tag (2, 5) in between. *)
Definition keywords_stream : list record_t :=
  [((2, 25), [65]); ((2, 5), [84; 105]); ((2, 25), [66]); ((2, 25), [67])].

(** The layout of a Photoshop image resource block in the words of the
    specification: the marker, the resource id as a big-endian 16-bit
    integer, the name with its length byte padded to an even size, the
    payload size as a big-endian 32-bit integer, the payload padded to an
    even size. *)
Definition be16 (n : Z) : bytes := [n `div` 256; n `mod` 256].

Definition be32 (n : Z) : bytes :=
  [n `div` 16777216; (n `div` 65536) `mod` 256; (n `div` 256) `mod` 256;
   n `mod` 256].

Definition pad_even (b : bytes) : bytes :=
  if Nat.odd (length b) then b ++ [0] else b.

Definition resource_block (id : Z) (name payload : bytes) : bytes :=
  Iptc.bim_sig ++ be16 id ++ pad_even (Z.of_nat (length name) :: name)
  ++ be32 (Z.of_nat (length payload)) ++ pad_even payload.

(** A resource block as [(id, name, payload)]. *)
Definition block_t : Type := Z * bytes * bytes.

Definition encode_block (b : block_t) : bytes :=
  resource_block b.1.1 b.1.2 b.2.

(** A block whose fields fit their encoding. *)
Definition fits (b : block_t) : Prop :=
  0 <= b.1.1 < 65536
  /\ Z.of_nat (length b.1.2) < 256
  /\ Z.of_nat (length b.2) < 4294967296.

(** A block that is not the IPTC/NAA block. *)
Definition skipped (b : block_t) : Prop := fits b /\ b.1.1 <> 1028.

(** An APP13 segment with the blocks 0x0402 and 0x0404, both with names
    of odd length. *)
Definition app13_example : bytes :=
  Iptc.photoshop_sig
  ++ encode_block (1026, [65], [9; 9; 9])
  ++ encode_block (1028, [73; 80; 84], [28; 2; 5; 0; 1; 88]).

(** A computation that never exhausts the bound of a loop. *)
Definition terminates {S A} (m : M S A) : Prop :=
  forall st, (m st).1 <> Raise OutOfFuel.

(** The bytes the file object of [s] has left. *)
Definition left_in (s : Iptc.image) : nat := length (remaining (Iptc.fp s)).

(** A TIFF object whose IPTC/NAA tag (33723 in the TIFF plugin) holds
    [data], tagged as 4-byte integers. *)
Definition tiff_with (data : bytes) : Iptc.container :=
  Iptc.TiffImageFile (Some {[ 33723 := (4, data) ]}).

(** Blocks whose first record has a bad marker byte, the record number
    0, and the size byte 133. *)
Definition bad_marker_block : bytes := [0; 2; 5; 0; 0].
Definition bad_record_block : bytes := [28; 0; 5; 0; 0].
Definition bad_size_block : bytes := [28; 2; 5; 133; 0].

(** The records of a one-layer image of 64 by 64 pixels, uncompressed. *)
Definition dimension_stream : list record_t :=
  [((3, 60), [1; 0]); ((3, 20), [0; 0; 0; 64]); ((3, 30), [0; 0; 0; 64]);
   ((3, 120), [0; 1])].

(** An [IptcImageFile] of one by one pixel whose only tile is an [iptc]
    tile at offset 0, as [load] wants it, over a stream that does not
    start with a record marker; and no file around. *)
Definition staged_image : Iptc.image :=
  Iptc.Image (Stream [0; 0; 0; 0; 0] 0) ∅ "L" (1, 1)
    [(Iptc.Bytes Iptc.iptc_name, Iptc.IptcArgs "raw" 0, (0, 0, 1, 1))] None.

Definition staged_world : Iptc.world := (staged_image, ∅).

(** A block with one record of tag (2, 25), and the same block ending
    inside the header of the next record. *)
Definition keyword_block : bytes := encode_record ((2, 25), [65]).
Definition truncated_block : bytes := keyword_block ++ [28].

(** A record of tag (2, 25) with the payload A, then a record of the same
    tag in the extended form: the size byte 129 announces one length
    byte, and the length byte one byte of payload, B. *)
Definition extended_stream : bytes :=
  encode_record ((2, 25), [65]) ++ [28; 2; 25; 129; 0; 1; 66].

(** An [IptcImageFile] of one by one pixel with an [iptc] tile over one
    image data record. *)
Definition staged_pixel : Iptc.image :=
  Iptc.Image (Stream (encode_record ((8, 10), [200])) 0) ∅ "L" (1, 1)
    [(Iptc.Bytes Iptc.iptc_name, Iptc.IptcArgs "raw" 0, (0, 0, 1, 1))] None.

(** Stand-ins for what [load] calls outside the plugin: a loader that
    does nothing, a fixed temporary name, a decoder that refuses every
    file and one that hands back the bytes of the file. *)
Definition no_load : M Iptc.world unit := ret tt.

Definition tmp_name (files : Iptc.files_t) : string := "tmp".

Definition no_decoder (name : string) (files : Iptc.files_t)
    : result Iptc.core_image :=
  Raise (IOError "cannot identify image file").

Definition whole_file (name : string) (files : Iptc.files_t)
    : result Iptc.core_image :=
  match files !! name with
  | Some content => Ok (Iptc.CoreImage content)
  | None => Raise (IOError "no such file")
  end.

(** ** More definitions for the statements *)

(** Little-endian encodings, as an icon file stores its integers. *)
Definition le16 (n : Z) : bytes := [n `mod` 256; n `div` 256].

Definition le32 (n : Z) : bytes :=
  [n `mod` 256; (n `div` 256) `mod` 256; (n `div` 65536) `mod` 256;
   n `div` 16777216].

(** The six bytes at the start of an icon file with [count] entries. *)
Definition ico_header (count : Z) : bytes := [0; 0; 1; 0] ++ le16 count.

(** The width and height bytes of a directory entry. *)
Definition entry_width (e : bytes) : Z := default 0 (e !! 0%nat).
Definition entry_height (e : bytes) : Z := default 0 (e !! 1%nat).

(** [s] is strictly larger than [m] in both directions. *)
Definition dominates (s m : bytes) : Prop :=
  entry_width m < entry_width s /\ entry_height m < entry_height s.

(** A mapping none of whose values is an integer: the loop of [_open]
    stores [None], bytes objects and lists only. *)
Definition no_int (x : gmap Iptc.tag_t Iptc.value) : Prop :=
  forall t n, x !! t <> Some (Iptc.VInt n).

Definition holds_no_int (s : Iptc.image) : Prop := no_int (Iptc.info s).

(** [m] raises from every state that satisfies [P]. *)
Definition fails_on {S A} (P : S -> Prop) (m : M S A) : Prop :=
  forall st, P st -> exists e st', m st = (Raise e, st').

(** [m] keeps [P] when it returns. *)
Definition keeps {S A} (P : S -> Prop) (m : M S A) : Prop :=
  forall st a st', P st -> m st = (Ok a, st') -> P st'.

(** The image data records of a stream, in short form. *)
Definition image_data (payloads : list bytes) : bytes :=
  concat ((fun p => encode_record ((8, 10), p)) <$> payloads).

(** Payloads that the short form of a record can announce. *)
Definition short_payloads (payloads : list bytes) : Prop :=
  Forall (fun p : bytes => Z.of_nat (length p) < 32768) payloads.

(** What [load] stages for the given encoding, size and payloads. *)
Definition staged_bytes (encoding : string) (sz : Z * Z)
    (payloads : list bytes) : bytes :=
  (if bool_decide (encoding = "raw"%string) then Iptc.ppm_header sz else [])
  ++ concat payloads.

(** A file object over two image data records, for an image of two by
    one pixel, and decoders that hand back the bytes of the file. *)
Definition pixel_image : Iptc.image :=
  Iptc.Image (Stream (image_data [[200]; [100]]) 0) ∅ "L" (2, 1)
    [(Iptc.Bytes Iptc.iptc_name, Iptc.IptcArgs "raw" 0, (0, 0, 2, 1))] None.

Definition read_back (name : string) (files : Iptc.files_t)
    : result Iptc.core_image :=
  match files !! name with
  | Some content => Ok (Iptc.CoreImage content)
  | None => Raise (IOError "no such file")
  end.

(** [f] of the state is the same after [m], whether [m] returns or
    raises. *)
Definition unchanged {S A B} (f : S -> B) (m : M S A) : Prop :=
  forall st, f (m st).2 = f st.

(** The one-letter mode for channel [id] of the bands [letters]. *)
Definition channel (letters : string) (id : Z) : string :=
  match String.get (Z.to_nat id) letters with
  | Some a => String a EmptyString
  | None => EmptyString
  end.

(** The channel index [_open] derives from the record (3, 65): 0 without
    the record, its first byte less one with it. *)
Definition channel_id (x : gmap Iptc.tag_t Iptc.value) : option Z :=
  match x !! (3, 65) with
  | None => Some 0
  | Some (Iptc.VBytes (b :: _)) => Some (b - 1)
  | Some _ => None
  end.

(** An object whose mapping says three layers, a component flag and
    the second channel. *)
Definition green_image : Iptc.image :=
  Iptc.Image (Stream [] 0)
    (<[(3, 60) := Iptc.VBytes [3; 1]]> {[ (3, 65) := Iptc.VBytes [2] ]})
    "" (0, 0) [] None.

(** * Properties *)

(** ** The file object *)

Section StreamFacts.

Implicit Types (f : stream) (a rest : bytes).

(** Reading exactly the bytes that head the rest of the file. *)
Lemma read_prefix a rest f :
  remaining f = a ++ rest ->
  read (Z.of_nat (length a)) f = (a, advance (length a) f).
Proof.
  unfold remaining, read, advance. intros ->.
  assert ((Z.of_nat (length a) <? 0) = false) as -> by (apply Z.ltb_ge; lia).
  by rewrite Nat2Z.id, take_app_length.
Qed.

(** Reading [n] bytes when fewer are left gives them all. *)
Lemma read_short (n : nat) f :
  (length (remaining f) <= n)%nat ->
  read (Z.of_nat n) f = (remaining f, advance (length (remaining f)) f).
Proof.
  unfold remaining, read, advance. intros Hle.
  assert ((Z.of_nat n <? 0) = false) as -> by (apply Z.ltb_ge; lia).
  by rewrite Nat2Z.id, take_ge.
Qed.

Lemma remaining_advance a rest f :
  remaining f = a ++ rest -> remaining (advance (length a) f) = rest.
Proof.
  unfold remaining, advance. simpl. intros H.
  by rewrite <- drop_drop, H, drop_app_length.
Qed.

Lemma advance_advance n k f : advance k (advance n f) = advance (n + k) f.
Proof. unfold advance. simpl. f_equal. lia. Qed.

End StreamFacts.

(** ** The icon plugin *)

Section IcoFacts.

Context {targs : Type}.
Implicit Types (im : Ico.image targs) (m s e : bytes) (es : list bytes).

Lemma ico_advance_0 im : ico_advance 0 im = im.
Proof.
  destruct im as [[d p] sz t]. unfold ico_advance, Ico.set_fp, advance.
  simpl. by rewrite Nat.add_0_r.
Qed.

Lemma ico_advance_add n k im :
  ico_advance k (ico_advance n im) = ico_advance (n + k) im.
Proof.
  unfold ico_advance, Ico.set_fp. simpl. by rewrite advance_advance.
Qed.

Lemma ico_read_prefix a rest im :
  remaining (Ico.fp im) = a ++ rest ->
  Ico.fp_read (Z.of_nat (length a)) im = (Ok a, ico_advance (length a) im).
Proof.
  intros H. unfold Ico.fp_read. by rewrite (read_prefix _ _ _ H).
Qed.

(** One turn of the loop, on a whole entry, with an entry selected. *)
Lemma pick_step_entry m e rest im :
  length m = 16%nat -> length e = 16%nat ->
  remaining (Ico.fp im) = e ++ rest ->
  Ico.pick_step m im
  = (Ok (if replaces m e then e else m), ico_advance 16 im).
Proof.
  intros Hm He Hrest.
  unfold Ico.pick_step, mbind, M_bind, bind.
  change 16 with (Z.of_nat 16). rewrite <- He at 1.
  rewrite (ico_read_prefix _ _ _ Hrest), He.
  destruct m as [|mw [|mh m']]; try discriminate.
  destruct e as [|sw [|sh e']]; try discriminate.
  cbn. destruct (sw >? mw); cbn; [destruct (sh >? mh)|]; reflexivity.
Qed.

Lemma replaces_length m e :
  length m = 16%nat -> length e = 16%nat ->
  length (if replaces m e then e else m) = 16%nat.
Proof. by destruct (replaces m e). Qed.

Lemma pick_entries es : forall m rest im,
  length m = 16%nat ->
  Forall (fun e => length e = 16%nat) es ->
  remaining (Ico.fp im) = concat es ++ rest ->
  Ico.pick (length es) m im
  = (Ok (fold_left (fun m s => if replaces m s then s else m) es m),
     ico_advance (16 * length es) im).
Proof.
  induction es as [|e es IH]; intros m rest im Hm Hes Hrest.
  - cbn. by rewrite ico_advance_0.
  - inversion Hes as [|? ? He Hes']; subst.
    cbn [concat] in Hrest. rewrite <- app_assoc in Hrest.
    cbn [length Ico.pick fold_left]. unfold mbind, M_bind, bind.
    rewrite (pick_step_entry _ _ _ _ Hm He Hrest).
    erewrite IH; [| by apply replaces_length | done |].
    + rewrite ico_advance_add. do 2 f_equal. lia.
    + unfold ico_advance, Ico.set_fp. cbn [Ico.fp]. rewrite <- He.
      by apply remaining_advance.
Qed.



(** C8: once the bitmap decoder has reported the size [(w, rh)] and one
    tile, [_open] publishes the size [(w, rh // 2)] and rewrites the
    extents of the first tile to [(0, 0, w, rh // 2)], keeping the tile's
    decoder, offset and arguments. *)
Theorem open_halves_height (_bitmap : Z -> M (Ico.image targs) unit)
    im im0 im1 off w rh d ext o a ts :
  Ico.read_directory im = (Ok off, im0) ->
  _bitmap off im0 = (Ok tt, im1) ->
  Ico.size im1 = (w, rh) ->
  Ico.tile im1 = (d, ext, o, a) :: ts ->
  Ico._open _bitmap im
  = (Ok tt, Ico.Image (Ico.fp im1) (w, rh `div` 2)
              ((d, (0, 0, w, rh `div` 2), o, a) :: ts)).
Proof.
  intros Hdir Hbmp Hsize Htile.
  unfold Ico._open, mbind, M_bind, bind. rewrite Hdir, Hbmp.
  unfold Ico.patch_height, Ico.patch_tile, mbind, M_bind, bind, gets, modify.
  cbn. rewrite Hsize, Htile. reflexivity.
Qed.

(** C10: a file that starts with the magic bytes and a directory count of
    zero is accepted as an icon, no entry is read, and [i32(m[12:])] on the
    empty selection raises [IndexError]; [_bitmap] has not run, whatever it
    is, and nothing but the six header bytes has been consumed. *)
Theorem open_empty_directory (_bitmap : Z -> M (Ico.image targs) unit) im rest :
  remaining (Ico.fp im) = [0; 0; 1; 0; 0; 0] ++ rest ->
  Ico._open _bitmap im = (Raise IndexError, ico_advance 6 im).
Proof.
  intros Hrest.
  unfold Ico._open, Ico.read_directory, mbind, M_bind, bind.
  change 6 with (Z.of_nat (length [0; 0; 1; 0; 0; 0])).
  rewrite (ico_read_prefix _ _ _ Hrest). reflexivity.
Qed.

End IcoFacts.


(** A file with one entry whose bitmap is reported as 64 by 128. *)
Lemma open_halves_height_witness :
  let content := [0; 0; 1; 0; 1; 0] ++ ico_entry 64 64 22 in
  Ico._open bitmap_64x128 (ico_file content)
  = (Ok tt, Ico.Image (Stream content 22) (64, 64)
              [("raw"%string, (0, 0, 64, 64), 62, tt)]).
Proof.
  exact (open_halves_height bitmap_64x128
           (ico_file ([0; 0; 1; 0; 1; 0] ++ ico_entry 64 64 22))
           (Ico.Image (Stream ([0; 0; 1; 0; 1; 0] ++ ico_entry 64 64 22) 22) (0, 0) [])
           (Ico.Image (Stream ([0; 0; 1; 0; 1; 0] ++ ico_entry 64 64 22) 22) (64, 128)
              [("raw"%string, (0, 0, 64, 128), 62, tt)])
           22 64 128 "raw"%string (0, 0, 64, 128) 62 tt []
           eq_refl eq_refl eq_refl eq_refl).
Defined.

(** The six header bytes alone. *)
Lemma open_empty_directory_witness :
  remaining (Ico.fp (ico_file [0; 0; 1; 0; 0; 0])) = [0; 0; 1; 0; 0; 0] ++ []
  /\ Ico._open bitmap_64x128 (ico_file [0; 0; 1; 0; 0; 0])
     = (Raise IndexError, ico_advance 6 (ico_file [0; 0; 1; 0; 0; 0])).
Proof.
  split; [reflexivity |].
  exact (open_empty_directory bitmap_64x128 (ico_file [0; 0; 1; 0; 0; 0]) [] eq_refl).
Defined.

(** ** The IPTC plugin: record headers *)

Section FieldFacts.

Import Iptc.
Implicit Types (s : image) (a rest : bytes).

Lemma iptc_read_prefix a rest s :
  remaining (fp s) = a ++ rest ->
  fp_read (Z.of_nat (length a)) s = (Ok a, iptc_advance (length a) s).
Proof.
  intros H. unfold fp_read. by rewrite (read_prefix _ _ _ H).
Qed.

Lemma iptc_read_short (n : nat) s :
  (length (remaining (fp s)) <= n)%nat ->
  fp_read (Z.of_nat n) s
  = (Ok (remaining (fp s)), iptc_advance (length (remaining (fp s))) s).
Proof.
  intros H. unfold fp_read. by rewrite (read_short _ _ H).
Qed.

(** C2, as the code has it: [field] signals the end of the records only
    when its read yields no byte at all.  With one or two bytes left,
    building the tag raises [IndexError]; with three or four bytes left
    [field] never answers "no tag". *)
Theorem field_short_header s :
  (length (remaining (fp s)) = 0%nat -> (field s).1 = Ok (None, 0))
  /\ ((1 <= length (remaining (fp s)) <= 2)%nat -> (field s).1 = Raise IndexError)
  /\ ((3 <= length (remaining (fp s)) <= 4)%nat ->
      forall size, (field s).1 <> Ok (None, size)).
Proof.
  assert (Hread : (length (remaining (fp s)) <= 5)%nat ->
            fp_read 5 s = (Ok (remaining (fp s)),
                           iptc_advance (length (remaining (fp s))) s))
    by apply (iptc_read_short 5).
  unfold field, mbind, M_bind, bind.
  repeat split; intros Hlen; rewrite Hread by lia;
    destruct (remaining (fp s)) as [|b0 [|b1 [|b2 [|b3 [|b4 l]]]]];
    cbn in Hlen; try lia; try reflexivity.
  all: intros size; cbn.
  all: destruct (negb (b0 =? 28) || (b1 <? 1) || (b1 >? 9)); cbn; try discriminate.
  all: destruct (b3 >? 132); cbn; try discriminate.
  all: destruct (b3 =? 128); cbn; try discriminate.
  all: destruct (b3 >? 128); cbn; try discriminate.
  all: unfold fp_read; destruct (read _ _) as [got f']; cbn; discriminate.
Qed.

(** [field] at the end of the stream. *)
Lemma field_eof s :
  remaining (fp s) = [] -> field s = (Ok (None, 0), iptc_advance 0 s).
Proof.
  intros H. unfold field, mbind, M_bind, bind.
  pose proof (iptc_read_short 5 s) as Hr. rewrite H in Hr.
  change (Z.of_nat 5) with 5 in Hr. rewrite Hr by (cbn; lia).
  reflexivity.
Qed.

(** [field] on a whole header in short form. *)
Lemma field_short_form s r d b3 b4 rest :
  remaining (fp s) = [28; r; d; b3; b4] ++ rest ->
  1 <= r <= 9 ->
  0 <= b3 < 128 ->
  field s = (Ok (Some (r, d), b3 * 256 + b4), iptc_advance 5 s).
Proof.
  intros Hrest Hr Hb.
  unfold field, mbind, M_bind, bind.
  change 5 with (Z.of_nat (length [28; r; d; b3; b4])).
  rewrite (iptc_read_prefix _ _ _ Hrest). cbn.
  assert ((r <? 1) = false) as -> by (apply Z.ltb_ge; lia).
  assert ((r >? 9) = false) as -> by (rewrite Z.gtb_ltb; apply Z.ltb_ge; lia).
  assert ((b3 >? 132) = false) as -> by (rewrite Z.gtb_ltb; apply Z.ltb_ge; lia).
  assert ((b3 =? 128) = false) as -> by (apply Z.eqb_neq; lia).
  assert ((b3 >? 128) = false) as -> by (rewrite Z.gtb_ltb; apply Z.ltb_ge; lia).
  cbn. rewrite Z.shiftl_mul_pow2 by lia. change (2 ^ 8) with 256.
  unfold ret. do 3 f_equal. lia.
Qed.

(** C3, as the code has it: with a well-formed header, a size byte below
    128 is the high byte of the big-endian 16-bit size made of header
    bytes 3 and 4, and the size byte 128 means no payload. *)
Theorem field_size_regimes s r d b3 b4 rest :
  remaining (fp s) = [28; r; d; b3; b4] ++ rest ->
  1 <= r <= 9 ->
  (0 <= b3 < 128 ->
   field s = (Ok (Some (r, d), b3 * 256 + b4), iptc_advance 5 s))
  /\ (b3 = 128 -> field s = (Ok (Some (r, d), 0), iptc_advance 5 s)).
Proof.
  intros Hrest Hr. split.
  - intros Hb. by apply (field_short_form s r d b3 b4 rest).
  - intros ->. unfold field, mbind, M_bind, bind.
    change 5 with (Z.of_nat (length [28; r; d; 128; b4])).
    rewrite (iptc_read_prefix _ _ _ Hrest). cbn.
    assert ((r <? 1) = false) as -> by (apply Z.ltb_ge; lia).
    assert ((r >? 9) = false) as -> by (rewrite Z.gtb_ltb; apply Z.ltb_ge; lia).
    reflexivity.
Qed.

End FieldFacts.

(** Streams of no, two and four bytes. *)
Lemma field_short_header_witness :
  (length (remaining (Iptc.fp (Iptc.fake_image []))) = 0%nat
   /\ (Iptc.field (Iptc.fake_image [])).1 = Ok (None, 0))
  /\ ((1 <= length (remaining (Iptc.fp (Iptc.fake_image short_header_2))) <= 2)%nat
      /\ (Iptc.field (Iptc.fake_image short_header_2)).1 = Raise IndexError)
  /\ ((3 <= length (remaining (Iptc.fp (Iptc.fake_image short_header_4))) <= 4)%nat
      /\ (Iptc.field (Iptc.fake_image short_header_4)).1 <> Ok (None, 0)).
Proof.
  split; [| split].
  - split; [reflexivity |].
    exact (proj1 (field_short_header (Iptc.fake_image [])) eq_refl).
  - assert (H : (1 <= length (remaining (Iptc.fp (Iptc.fake_image short_header_2))) <= 2)%nat)
      by (cbn; lia).
    split; [exact H |].
    exact (proj1 (proj2 (field_short_header (Iptc.fake_image short_header_2))) H).
  - assert (H : (3 <= length (remaining (Iptc.fp (Iptc.fake_image short_header_4))) <= 4)%nat)
      by (cbn; lia).
    split; [exact H |].
    exact (proj2 (proj2 (field_short_header (Iptc.fake_image short_header_4))) H 0).
Defined.

(** C2 as it is written fails: one byte left is fewer than five, and
    [field] raises. *)
Lemma field_short_header_counterexample :
  ~ (forall data : bytes,
       (length data < 5)%nat ->
       (Iptc.field (Iptc.fake_image data)).1 = Ok (None, 0)).
Proof.
  intros H. specialize (H [28] ltac:(cbn; lia)). discriminate H.
Qed.

(** The size bytes (0, 10) and the size byte 128. *)
Lemma field_size_regimes_witness :
  (remaining (Iptc.fp (Iptc.fake_image [28; 2; 5; 0; 10])) = [28; 2; 5; 0; 10] ++ []
   /\ 1 <= 2 <= 9 /\ 0 <= 0 < 128
   /\ Iptc.field (Iptc.fake_image [28; 2; 5; 0; 10])
      = (Ok (Some (2, 5), 0 * 256 + 10),
         iptc_advance 5 (Iptc.fake_image [28; 2; 5; 0; 10])))
  /\ (remaining (Iptc.fp (Iptc.fake_image [28; 2; 5; 128; 0])) = [28; 2; 5; 128; 0] ++ []
      /\ Iptc.field (Iptc.fake_image [28; 2; 5; 128; 0])
         = (Ok (Some (2, 5), 0), iptc_advance 5 (Iptc.fake_image [28; 2; 5; 128; 0]))).
Proof.
  split.
  - split; [reflexivity |]. split; [lia |]. split; [lia |].
    exact (proj1 (field_size_regimes (Iptc.fake_image [28; 2; 5; 0; 10])
                    2 5 0 10 [] eq_refl ltac:(lia)) ltac:(lia)).
  - split; [reflexivity |].
    exact (proj2 (field_size_regimes (Iptc.fake_image [28; 2; 5; 128; 0])
                    2 5 128 0 [] eq_refl ltac:(lia)) eq_refl).
Defined.

(** C3 as it is written fails: a header whose size byte is 50 and whose
    next byte is 10 announces 12810 bytes, not 10, and no header with the
    size byte 50 has a 16-bit size of 10. *)
Lemma field_size_regimes_counterexample :
  (Iptc.field (Iptc.fake_image [28; 2; 5; 50; 10])).1 = Ok (Some (2, 5), 12810)
  /\ ~ (exists b4 : Z, 0 <= b4 < 256 /\ Iptc.i16 [50; b4] = Ok 10).
Proof.
  split; [reflexivity |].
  intros (b4 & Hb & H). cbn in H. injection H as H.
  change (Z.shiftl 50 8) with 12800 in H. lia.
Qed.

(** ** The IPTC plugin: the mapping *)

Section AccumulateFacts.

Import Iptc.
Implicit Types (s : image) (r : record_t) (rs pre : list record_t) (t : tag_t).

Lemma remaining_iptc_advance a rest s :
  remaining (fp s) = a ++ rest ->
  remaining (fp (iptc_advance (length a) s)) = rest.
Proof. intros H. unfold iptc_advance. cbn. by apply remaining_advance. Qed.

(** [field] on the header of a record in short form. *)
Lemma field_record r rest s :
  descriptive r ->
  remaining (fp s) = encode_record r ++ rest ->
  field s = (Ok (Some r.1, Z.of_nat (length r.2)), iptc_advance 5 s).
Proof.
  intros (Hr & _ & Hlen) Hrest. destruct r as [[rn dn] payload].
  cbn [fst snd] in *. unfold encode_record in Hrest. cbn [fst snd] in Hrest.
  set (n := Z.of_nat (length payload)) in *.
  assert (Hn : 0 <= n < 32768) by lia.
  rewrite <- app_assoc in Hrest.
  rewrite (field_short_form s rn dn (n `div` 256) (n `mod` 256)
             (payload ++ rest) Hrest Hr)
    by (Z.div_mod_to_equations; lia).
  do 3 f_equal. Z.div_mod_to_equations. lia.
Qed.

Lemma payloads_of_snoc t pre r :
  payloads_of t (pre ++ [r])
  = payloads_of t pre ++ (if decide (r.1 = t) then [tagdata_of r.2] else []).
Proof.
  unfold payloads_of. rewrite filter_app, fmap_app. f_equal.
  rewrite filter_cons, filter_nil. by destruct (decide (r.1 = t)).
Qed.

(** One record more in the mapping. *)
Lemma info_add_accumulated pre r (x : gmap tag_t value) :
  (forall t, x !! t = accumulated (payloads_of t pre)) ->
  forall t, info_add r.1 (tagdata_of r.2) x !! t
            = accumulated (payloads_of t (pre ++ [r])).
Proof.
  intros Hx t. rewrite payloads_of_snoc. unfold info_add.
  destruct (decide (r.1 = t)) as [<- | Hne].
  - rewrite (Hx r.1).
    destruct (payloads_of r.1 pre) as [|a [|b l]] eqn:Hp; cbn.
    + by rewrite lookup_insert_eq.
    + assert (exists p, a = tagdata_of p) as [p ->].
      { unfold payloads_of in Hp.
        destruct (filter _ pre) as [|q ?]; [discriminate |].
        exists q.2. by injection Hp. }
      destruct p; cbn; by rewrite lookup_insert_eq.
    + by rewrite lookup_insert_eq.
  - rewrite app_nil_r.
    destruct (x !! r.1) as [[]|]; by rewrite lookup_insert_ne.
Qed.

(** Every record takes at least its header. *)
Lemma length_records rs :
  (length rs <= length (concat (encode_record <$> rs)))%nat.
Proof.
  induction rs as [|r rs IH]; [cbn; lia |].
  rewrite fmap_cons. cbn [concat]. rewrite length_app.
  unfold encode_record at 1. rewrite length_app. cbn [length]. lia.
Qed.

(** The loop of [_open] over a stream of descriptive records. *)
Lemma open_fields_records rs : forall pre s fuel,
  Forall descriptive rs ->
  remaining (fp s) = concat (encode_record <$> rs) ->
  (length rs < fuel)%nat ->
  (forall t, info s !! t = accumulated (payloads_of t pre)) ->
  exists offset s',
    open_fields fuel s = (Ok (offset, None, 0), s')
    /\ forall t, info s' !! t = accumulated (payloads_of t (pre ++ rs)).
Proof.
  induction rs as [|r rs IH]; intros pre s fuel Hrs Hrest Hfuel Hinfo.
  - destruct fuel as [|fuel]; [cbn in Hfuel; lia |].
    exists (s_pos (fp s)), (iptc_advance 0 s). split.
    + cbn [open_fields]. unfold mbind at 1 2, M_bind, bind, fp_tell, gets.
      rewrite (field_eof s Hrest). reflexivity.
    + rewrite app_nil_r. exact Hinfo.
  - destruct fuel as [|fuel]; [cbn in Hfuel; lia |].
    inversion Hrs as [|? ? Hr Hrs']; subst.
    cbn [fmap list_fmap concat] in Hrest.
    change (concat (list_fmap _ _ encode_record rs))
      with (concat (encode_record <$> rs)) in Hrest.
    pose proof (field_record r _ s Hr Hrest) as Hfield.
    (* the stream behind the header *)
    assert (Hpay : remaining (fp (iptc_advance 5 s))
                   = r.2 ++ concat (encode_record <$> rs)).
    { unfold encode_record in Hrest. rewrite <- app_assoc in Hrest.
      exact (remaining_iptc_advance [_; _; _; _; _] _ s Hrest). }
    set (s1 := iptc_advance 5 s) in *.
    (* the payload, if any, and the state behind it *)
    set (s2 := iptc_advance (length r.2) s1).
    assert (Hdata :
      (if negb (Z.of_nat (length r.2) =? 0)
       then b ← fp_read (Z.of_nat (length r.2)); ret (VBytes b)
       else ret VNone) s1
      = (Ok (tagdata_of r.2),
         if negb (Z.of_nat (length r.2) =? 0) then s2 else s1)).
    { destruct r.2 as [|p0 p] eqn:Hp.
      - reflexivity.
      - assert ((Z.of_nat (length (p0 :: p)) =? 0) = false) as ->
          by (apply Z.eqb_neq; cbn; lia).
        cbn [negb]. unfold mbind, M_bind, bind.
        rewrite <- Hp in *. rewrite (iptc_read_prefix _ _ _ Hpay).
        rewrite Hp. reflexivity. }
    set (s3 := if negb (Z.of_nat (length r.2) =? 0) then s2 else s1) in *.
    assert (Hrest3 : remaining (fp s3) = concat (encode_record <$> rs)).
    { subst s3 s2. destruct r.2 as [|p0 p] eqn:Hp.
      - exact Hpay.
      - assert ((Z.of_nat (length (p0 :: p)) =? 0) = false) as ->
          by (apply Z.eqb_neq; cbn; lia).
        cbn [negb]. rewrite <- Hp in *.
        exact (remaining_iptc_advance _ _ _ Hpay). }
    assert (Hinfo3 : info s3 = info s).
    { subst s3 s2 s1. by destruct (negb _). }
    destruct (IH (pre ++ [r])
                (set_info (info_add r.1 (tagdata_of r.2) (info s3)) s3) fuel)
      as (offset & s' & Hloop & Hfinal).
    + exact Hrs'.
    + exact Hrest3.
    + cbn in Hfuel. lia.
    + cbn [info set_info]. rewrite Hinfo3.
      by apply info_add_accumulated.
    + exists offset, s'. split.
      * cbn [open_fields]. unfold mbind at 1 2, M_bind, bind, fp_tell, gets.
        rewrite Hfield.
        destruct Hr as (_ & Hmarker & _).
        rewrite bool_decide_eq_false_2 by exact Hmarker.
        unfold mbind at 1, M_bind, bind.
        lazymatch goal with
        | |- (let (_, _) := ?e in _) = _ =>
          replace e with (Ok (tagdata_of r.2), s3) by (symmetry; exact Hdata)
        end.
        unfold mbind at 1, M_bind, bind, modify. exact Hloop.
      * rewrite <- app_assoc in Hfinal. exact Hfinal.
Qed.

(** X18: the loop of [_open] over a stream of descriptive records in
    short form, which ends with the last of them, returns and maps
    every tag to what its records carry, in the order of arrival: nothing
    for a tag that does not occur, the payload itself (or [None]) for a tag
    that occurs once, the list of the payloads for a tag that occurs twice
    or more. *)
Theorem open_fields_accumulates rs s :
  Forall descriptive rs ->
  remaining (fp s) = concat (encode_record <$> rs) ->
  info s = ∅ ->
  exists offset s',
    open_fields (S (length (remaining (fp s)))) s = (Ok (offset, None, 0), s')
    /\ forall t, info s' !! t = accumulated (payloads_of t rs).
Proof.
  intros Hrs Hrest Hempty.
  apply (open_fields_records rs [] s); [done | done | | ].
  - rewrite Hrest. pose proof (length_records rs). lia.
  - intros t. rewrite Hempty. apply lookup_empty.
Qed.

End AccumulateFacts.

(** A tag with the payloads A, B and C, a tag seen once, a tag never
    seen. *)
Lemma open_fields_accumulates_witness :
  let s := Iptc.fake_image (concat (encode_record <$> keywords_stream)) in
  Forall descriptive keywords_stream
  /\ exists offset s',
       Iptc.open_fields (S (length (remaining (Iptc.fp s)))) s
       = (Ok (offset, None, 0), s')
       /\ Iptc.info s' !! (2, 25)
          = Some (Iptc.VList [Iptc.VBytes [65]; Iptc.VBytes [66]; Iptc.VBytes [67]])
       /\ Iptc.info s' !! (2, 5) = Some (Iptc.VBytes [84; 105])
       /\ Iptc.info s' !! (2, 80) = None.
Proof.
  intros s.
  assert (Hd : Forall descriptive keywords_stream).
  { repeat constructor; cbn; (lia || discriminate). }
  split; [exact Hd |].
  destruct (open_fields_accumulates keywords_stream s Hd eq_refl eq_refl)
    as (offset & s' & Hrun & Hinfo).
  exists offset, s'. split; [exact Hrun |].
  split; [exact (Hinfo (2, 25)) |].
  split; [exact (Hinfo (2, 5)) | exact (Hinfo (2, 80))].
Defined.

(** ** The IPTC plugin: the resource blocks of a JPEG file *)

Section JpegFacts.

Import Iptc.
Implicit Types (pre x app name payload rest : bytes) (b : block_t).

Lemma getitem_in pre x j k v :
  j = (length pre + k)%nat -> x !! k = Some v ->
  getitem (pre ++ x) j = Ok v.
Proof.
  intros -> Hk. unfold getitem, bytes in *. rewrite lookup_app_r by lia.
  replace (length pre + k - length pre)%nat with k by lia. by rewrite Hk.
Qed.

Lemma slice_in pre x j1 j2 a c :
  j1 = (length pre + a)%nat -> j2 = (length pre + c)%nat ->
  slice (pre ++ x) j1 j2 = slice x a c.
Proof.
  intros -> ->. unfold slice. rewrite drop_app_add.
  by replace (length pre + c - (length pre + a))%nat with (c - a)%nat by lia.
Qed.

Lemma even_up_eq (n : nat) :
  even_up n = (n + (if Nat.odd n then 1 else 0))%nat.
Proof. unfold even_up. destruct (Nat.odd n); lia. Qed.

Lemma length_pad_even x : length (pad_even x) = even_up (length x).
Proof.
  unfold pad_even, even_up. destruct (Nat.odd (length x)); [|done].
  rewrite length_app. cbn. lia.
Qed.

Lemma even_up_add (a n : nat) :
  Nat.odd a = false -> even_up (a + n) = (a + even_up n)%nat.
Proof.
  intros Ha. unfold even_up. rewrite Nat.odd_add, Ha. cbn.
  destruct (Nat.odd n); lia.
Qed.

Lemma odd_even_up (n : nat) : Nat.odd (even_up n) = false.
Proof.
  unfold even_up. destruct (Nat.odd n) eqn:H; [|done].
  rewrite Nat.odd_add, H. reflexivity.
Qed.

Lemma even_up_S (n : nat) : even_up (7 + n) = (6 + even_up (S n))%nat.
Proof.
  change (7 + n)%nat with (6 + S n)%nat. by apply even_up_add.
Qed.

Lemma length_resource_block id name payload :
  length (resource_block id name payload)
  = (6 + even_up (S (length name)) + 4 + even_up (length payload))%nat.
Proof.
  unfold resource_block. rewrite !length_app, !length_pad_even. cbn. lia.
Qed.

Lemma odd_length_resource_block id name payload :
  Nat.odd (length (resource_block id name payload)) = false.
Proof.
  rewrite length_resource_block, !Nat.odd_add, !odd_even_up. reflexivity.
Qed.

Lemma be16_value id :
  0 <= id < 65536 -> id `mod` 256 + Z.shiftl (id `div` 256) 8 = id.
Proof.
  intros H. rewrite Z.shiftl_mul_pow2 by lia. change (2 ^ 8) with 256.
  Z.div_mod_to_equations. lia.
Qed.

Lemma be32_value n :
  0 <= n < 4294967296 ->
  n `mod` 256 + Z.shiftl ((n `div` 256) `mod` 256) 8
  + Z.shiftl ((n `div` 65536) `mod` 256) 16 + Z.shiftl (n `div` 16777216) 24
  = n.
Proof.
  intros H. rewrite !Z.shiftl_mul_pow2 by lia.
  change (2 ^ 8) with 256. change (2 ^ 16) with 65536.
  change (2 ^ 24) with 16777216.
  Z.div_mod_to_equations. lia.
Qed.

Lemma take_pad_even payload rest :
  take (length payload) (pad_even payload ++ rest) = payload.
Proof.
  unfold pad_even. destruct (Nat.odd (length payload)).
  - by rewrite <- app_assoc, take_app_length.
  - by rewrite take_app_length.
Qed.

(** One turn of the loop on a whole block that starts at an even offset. *)
Lemma resource_blocks_step fuel pre id name payload rest :
  Nat.odd (length pre) = false ->
  fits (id, name, payload) ->
  resource_blocks (S fuel) (pre ++ resource_block id name payload ++ rest)
    (length pre)
  = if id =? 1028 then Ok (Some payload)
    else resource_blocks fuel (pre ++ resource_block id name payload ++ rest)
           (length pre + length (resource_block id name payload)).
Proof.
  intros Hpre (Hid & Hname & Hpayload). cbn [fst snd] in *.
  set (blk := resource_block id name payload ++ rest).
  set (ln := length name) in *. set (lp := length payload) in *.
  set (padname := pad_even (Z.of_nat ln :: name)).
  set (o2 := (length pre + 6 + length padname)%nat).
  assert (Hpadname : exists tl, padname = Z.of_nat ln :: tl).
  { subst padname. unfold pad_even.
    destruct (Nat.odd (length (_ :: name))); cbn; eauto. }
  destruct Hpadname as [tl Htl].
  assert (Hblk : blk = bim_sig ++ be16 id ++ padname
                       ++ be32 (Z.of_nat lp) ++ pad_even payload ++ rest).
  { subst blk. unfold resource_block. by rewrite <- !app_assoc. }
  assert (F1 : slice (pre ++ blk) (length pre) (length pre + 4) = bim_sig).
  { rewrite (slice_in pre blk _ _ 0 4) by lia. by rewrite Hblk. }
  assert (F2 : Jpeg_i16 (pre ++ blk) (length pre + 4) = Ok id).
  { unfold Jpeg_i16.
    rewrite (getitem_in pre blk (length pre + 4 + 1) 5 (id `mod` 256)) by (lia || reflexivity).
    rewrite (getitem_in pre blk (length pre + 4) 4 (id `div` 256)) by (lia || reflexivity).
    cbn. by rewrite be16_value. }
  assert (F3 : getitem (pre ++ blk) (length pre + 4 + 2) = Ok (Z.of_nat ln)).
  { apply (getitem_in pre blk _ 6); [lia |]. by rewrite Hblk, Htl. }
  assert (F4 : even_up (1 + (length pre + 4 + 2) + Z.to_nat (Z.of_nat ln)) = o2).
  { subst o2 padname. rewrite length_pad_even, Nat2Z.id. cbn [length].
    fold ln.
    replace (1 + (length pre + 4 + 2) + ln)%nat
      with (length pre + (7 + ln))%nat by lia.
    rewrite even_up_add, even_up_S by done. lia. }
  assert (Hsplit : pre ++ blk
                   = (pre ++ bim_sig ++ be16 id ++ padname)
                     ++ be32 (Z.of_nat lp) ++ pad_even payload ++ rest).
  { rewrite Hblk. by rewrite <- !app_assoc. }
  assert (Hlen : length (pre ++ bim_sig ++ be16 id ++ padname) = o2).
  { subst o2. rewrite !length_app. cbn. lia. }
  assert (F5 : Jpeg_i32 (pre ++ blk) o2 = Ok (Z.of_nat lp)).
  { unfold Jpeg_i32. rewrite Hsplit.
    rewrite (getitem_in _ _ (o2 + 3) 3 (Z.of_nat lp `mod` 256)) by (lia || done).
    rewrite (getitem_in _ _ (o2 + 2) 2 ((Z.of_nat lp `div` 256) `mod` 256))
      by (lia || done).
    rewrite (getitem_in _ _ (o2 + 1) 1 ((Z.of_nat lp `div` 65536) `mod` 256))
      by (lia || done).
    rewrite (getitem_in _ _ o2 0 (Z.of_nat lp `div` 16777216)) by (lia || done).
    cbn. rewrite be32_value by lia. done. }
  assert (F6 : slice (pre ++ blk) (o2 + 4) (o2 + 4 + Z.to_nat (Z.of_nat lp))
               = payload).
  { rewrite Hsplit, Nat2Z.id.
    rewrite (slice_in _ _ _ _ 4 (4 + lp)) by lia.
    unfold slice. replace (4 + lp - 4)%nat with lp by lia.
    cbn [be32 app drop]. apply take_pad_even. }
  assert (F7 : even_up (o2 + 4 + Z.to_nat (Z.of_nat lp))
               = (length pre + length (resource_block id name payload))%nat).
  { subst o2 padname. rewrite length_resource_block, length_pad_even, Nat2Z.id.
    cbn [length]. fold ln lp.
    replace (length pre + 6 + even_up (S ln) + 4 + lp)%nat
      with ((length pre + 6 + even_up (S ln) + 4) + lp)%nat by lia.
    rewrite even_up_add; [lia |].
    rewrite !Nat.odd_add, Hpre, odd_even_up. reflexivity. }
  cbn [resource_blocks].
  rewrite F1. unfold bytes_eqb at 1. rewrite bool_decide_eq_true_2 by done.
  rewrite F2. cbn [mbind result_bind rbind].
  rewrite F3. cbn [mbind result_bind rbind].
  rewrite F4, F5. cbn [mbind result_bind rbind].
  rewrite F6, F7. reflexivity.
Qed.

(** Every block takes at least its header. *)
Lemma length_blocks (bs : list block_t) :
  (length bs <= length (concat (encode_block <$> bs)))%nat.
Proof.
  induction bs as [|b bs IH]; [cbn; lia |].
  rewrite fmap_cons. cbn [concat]. rewrite length_app.
  unfold encode_block at 1. rewrite length_resource_block. cbn [length]. lia.
Qed.

(** The loop over blocks that are skipped, up to the IPTC/NAA block. *)
Lemma resource_blocks_walk (bs : list block_t) :
  forall pre fuel name payload rest,
  Nat.odd (length pre) = false ->
  Forall skipped bs ->
  (length bs < fuel)%nat ->
  fits (1028, name, payload) ->
  resource_blocks fuel
    (pre ++ concat (encode_block <$> bs)
         ++ resource_block 1028 name payload ++ rest)
    (length pre)
  = Ok (Some payload).
Proof.
  induction bs as [|b bs IH]; intros pre fuel name payload rest Hpre Hbs Hfuel Hfit;
    (destruct fuel as [|fuel]; [cbn in Hfuel; lia |]).
  - cbn [fmap list_fmap concat app].
    by rewrite resource_blocks_step.
  - inversion Hbs as [|? ? [Hb Hne] Hbs']; subst.
    destruct b as [[id nm] pl]. cbn [fst snd] in Hne.
    rewrite fmap_cons. cbn [concat]. unfold encode_block at 1. cbn [fst snd].
    rewrite <- (app_assoc (resource_block id nm pl)).
    rewrite resource_blocks_step by done.
    rewrite (proj2 (Z.eqb_neq id 1028) Hne).
    rewrite <- length_app, (app_assoc pre).
    apply IH; [| done | cbn in Hfuel; lia | done].
    by rewrite length_app, Nat.odd_add, Hpre, odd_length_resource_block.
Qed.

(** C7: in an APP13 segment that begins with the Photoshop signature
    and goes on with resource blocks, the extractor skips the blocks whose
    id is not 0x0404 and takes exactly the payload of the first block with
    the id 0x0404, whatever the lengths of the names and whatever
    follows. *)
Theorem locate_jpeg_iptc (chunk : Z) (segments : gmap string bytes)
    (bs : list block_t) name payload rest :
  Forall skipped bs ->
  fits (1028, name, payload) ->
  segments !! "APP13"%string
  = Some (photoshop_sig ++ concat (encode_block <$> bs)
            ++ resource_block 1028 name payload ++ rest) ->
  locate chunk (JpegImageFile (Some segments)) = Ok (Some payload).
Proof.
  intros Hbs Hfit Hseg. unfold locate, jpeg_data. rewrite Hseg.
  change 14%nat with (length photoshop_sig).
  rewrite take_app_length, drop_app_length.
  unfold bytes_eqb. rewrite bool_decide_eq_true_2 by done.
  apply (resource_blocks_walk bs []); [done | done | | done].
  rewrite length_app. pose proof (length_blocks bs). lia.
Qed.

End JpegFacts.

(** The blocks 0x0402 and 0x0404 with names of one and three bytes. *)
Lemma locate_jpeg_iptc_witness :
  Forall skipped [(1026, [65], [9; 9; 9])]
  /\ fits (1028, [73; 80; 84], [28; 2; 5; 0; 1; 88])
  /\ Iptc.locate 33723
       (Iptc.JpegImageFile (Some {[ "APP13"%string := app13_example ]}))
     = Ok (Some [28; 2; 5; 0; 1; 88]).
Proof.
  assert (Hs : Forall skipped [(1026, [65], [9; 9; 9])]).
  { repeat constructor; cbn; lia. }
  assert (Hf : fits (1028, [73; 80; 84], [28; 2; 5; 0; 1; 88])).
  { repeat split; cbn; lia. }
  split; [exact Hs |]. split; [exact Hf |].
  exact (locate_jpeg_iptc 33723 {[ "APP13"%string := app13_example ]}
           [(1026, [65], [9; 9; 9])] [73; 80; 84] [28; 2; 5; 0; 1; 88] []
           Hs Hf eq_refl).
Defined.

(** ** The IPTC plugin: the loops end *)

Section FuelFacts.

Import Iptc.
Implicit Types (s : image).

Lemma terminates_ret {S A} (a : A) : terminates (ret a : M S A).
Proof. intros st. discriminate. Qed.

Lemma terminates_raise {S A} (e : exn) :
  e <> OutOfFuel -> terminates (raise e : M S A).
Proof. intros He st. cbn. congruence. Qed.

Lemma terminates_lift {S A} (r : result A) :
  r <> Raise OutOfFuel -> terminates (lift r : M S A).
Proof. intros Hr st. exact Hr. Qed.

Lemma terminates_gets {S A} (f : S -> A) : terminates (gets f).
Proof. intros st. discriminate. Qed.

Lemma terminates_modify {S} (f : S -> S) : terminates (modify f).
Proof. intros st. discriminate. Qed.

Lemma terminates_bind {S A B} (m : M S A) (k : A -> M S B) :
  terminates m -> (forall a, terminates (k a)) -> terminates (bind m k).
Proof.
  intros Hm Hk st. unfold bind. specialize (Hm st).
  destruct (m st) as [[a|e] st']; [apply Hk |].
  cbn in *. congruence.
Qed.

Lemma terminates_fp_read n : terminates (fp_read n).
Proof. intros st. unfold fp_read. destruct (read n (fp st)). discriminate. Qed.

Lemma terminates_info_get key : terminates (info_get key).
Proof. intros st. unfold info_get. destruct (info st !! key); discriminate. Qed.

Lemma rbind_fuel {A B} (r : result A) (k : A -> result B) :
  r <> Raise OutOfFuel -> (forall a, k a <> Raise OutOfFuel) ->
  rbind r k <> Raise OutOfFuel.
Proof. intros Hr Hk. destruct r; [apply Hk | cbn; congruence]. Qed.

Lemma getitem_fuel c k : getitem c k <> Raise OutOfFuel.
Proof. unfold getitem. destruct (c !! k); discriminate. Qed.

Ltac result_fuel :=
  unfold mbind, result_bind;
  repeat first
    [ apply rbind_fuel; [| intros ?]
    | apply getitem_fuel
    | discriminate ].

Lemma i16_fuel c : i16 c <> Raise OutOfFuel.
Proof. unfold i16. result_fuel. Qed.

Lemma i32_fuel c : i32 c <> Raise OutOfFuel.
Proof. unfold i32. result_fuel. Qed.

Lemma i_fuel v : i v <> Raise OutOfFuel.
Proof.
  unfold i, mbind, result_bind. apply rbind_fuel; [| intros; apply i32_fuel].
  unfold bytes_of_1tuple. destruct v; try discriminate.
  destruct (_ && _); discriminate.
Qed.

Lemma subscript_fuel v k : subscript v k <> Raise OutOfFuel.
Proof.
  unfold subscript. destruct v; try discriminate.
  - result_fuel.
  - destruct (l !! k); discriminate.
Qed.

Lemma minus_int_fuel v n : minus_int v n <> Raise OutOfFuel.
Proof. destruct v; discriminate. Qed.

Lemma str_index_fuel str id : str_index str id <> Raise OutOfFuel.
Proof.
  unfold str_index. destruct id; try discriminate.
  destruct (_ && _); [| discriminate].
  destruct (String.get _ _); discriminate.
Qed.

(** Goals of the form [terminates m] for a straight-line [m]. *)
Ltac straight :=
  unfold mbind, M_bind;
  repeat first
    [ apply terminates_bind; [| intros ?]
    | apply terminates_ret
    | apply terminates_gets
    | apply terminates_modify
    | apply terminates_fp_read
    | apply terminates_info_get
    | apply terminates_raise; discriminate
    | apply terminates_lift;
      first [ apply getitem_fuel | apply i16_fuel | apply i_fuel
            | apply subscript_fuel | apply minus_int_fuel
            | apply str_index_fuel ]
    | match goal with
      | |- terminates (if ?b then _ else _) => destruct b
      | |- terminates (let '(_, _) := ?p in _) => destruct p
      end ].

Lemma terminates_field : terminates field.
Proof. unfold field. straight. Qed.

Lemma terminates_getint key : terminates (getint key).
Proof. unfold getint. straight. Qed.

Lemma terminates_try_except {S A} (m h : M S A) catches :
  terminates m -> terminates h -> terminates (try_except m catches h).
Proof.
  intros Hm Hh st. unfold try_except. specialize (Hm st).
  destruct (m st) as [[a|e] st']; [discriminate |].
  destruct (catches e); [apply Hh | cbn in *; congruence].
Qed.

Lemma terminates_compression_of : terminates compression_of.
Proof.
  unfold compression_of. apply terminates_try_except.
  - unfold mbind, M_bind. apply terminates_bind; [apply terminates_getint |].
    intros k. destruct (COMPRESSION !! k);
      [apply terminates_ret | apply terminates_raise; discriminate].
  - apply terminates_raise. discriminate.
Qed.

Lemma terminates_open_attributes offset tag fsize :
  terminates (open_attributes offset tag fsize).
Proof.
  unfold open_attributes, _is_raw.
  straight; try apply terminates_getint; try apply terminates_compression_of.
Qed.

(** A read takes what it returns off the bytes that are left. *)
Lemma read_left n f :
  (length (remaining (read n f).2) + length (read n f).1
   = length (remaining f))%nat.
Proof.
  unfold read, remaining. cbn [fst snd s_data s_pos].
  set (rest := drop (s_pos f) (s_data f)).
  set (got := if n <? 0 then rest else take (Z.to_nat n) rest).
  assert (Hgot : (length got <= length rest)%nat).
  { subst got. destruct (n <? 0); [lia |]. rewrite length_take. lia. }
  rewrite <- drop_drop. fold rest. rewrite length_drop. lia.
Qed.

Lemma fp_read_left n s :
  exists got s', fp_read n s = (Ok got, s')
    /\ (left_in s' + length got = left_in s)%nat
    /\ (n = 5 -> length got = 0%nat -> left_in s = 0%nat).
Proof.
  unfold fp_read, left_in. pose proof (read_left n (fp s)) as H.
  destruct (read n (fp s)) as [got f'] eqn:Hread. cbn [fst snd] in H.
  exists got, (set_fp f' s). split; [done |]. split; [exact H |].
  intros -> Hlen. unfold read in Hread. cbn in Hread.
  injection Hread as Hgot _. rewrite <- Hgot in Hlen.
  rewrite length_take in Hlen. unfold remaining. lia.
Qed.

(** A header that carries a tag has taken bytes off the stream. *)
Lemma field_progress s t size s' :
  field s = (Ok (Some t, size), s') -> (left_in s' < left_in s)%nat.
Proof.
  unfold field, mbind, M_bind, bind. intros H.
  destruct (fp_read_left 5 s) as (got & s1 & Hread & Hleft & _).
  rewrite Hread in H.
  destruct (length got =? 0)%nat eqn:Hlen; [discriminate |].
  apply Nat.eqb_neq in Hlen.
  unfold lift, raise, ret in H.
  repeat match type of H with
         | context [getitem ?c ?k] => destruct (getitem c k); try discriminate
         | context [if ?b then _ else _] => destruct b; try discriminate
         end.
  - injection H as _ _ <-. lia.
  - destruct (i16 _); [| discriminate]. injection H as _ _ <-. lia.
Qed.

(** The loop of [_open] ends within the bound [_open] gives it. *)
Lemma open_fields_total fuel : forall s,
  (left_in s < fuel)%nat -> (open_fields fuel s).1 <> Raise OutOfFuel.
Proof.
  induction fuel as [|fuel IH]; intros s Hfuel; [lia |].
  cbn [open_fields]. unfold mbind at 1 2, M_bind, bind, fp_tell, gets.
  pose proof (terminates_field s) as Hterm.
  destruct (field s) as [[[[t|] size]|e] s1] eqn:Hfield; cbn;
    [| discriminate | cbn in *; congruence].
  apply field_progress in Hfield.
  case_bool_decide; [cbn; discriminate |].
  unfold mbind, M_bind, bind.
  destruct (negb (size =? 0)).
  - destruct (fp_read_left size s1) as (b & s2 & -> & Hleft & _).
    cbn. apply IH. unfold left_in in *. cbn. lia.
  - cbn. apply IH. unfold left_in in *. cbn. lia.
Qed.

Lemma open_total s : (_open s).1 <> Raise OutOfFuel.
Proof.
  unfold _open, mbind, M_bind, bind, gets.
  pose proof (open_fields_total (S (left_in s)) s ltac:(lia)) as H.
  unfold left_in in H.
  destruct (open_fields _ s) as [[[[offset tag] fsize]|e] s1];
    [| cbn in *; congruence].
  apply terminates_open_attributes.
Qed.

(** The loop over the resource blocks ends within the bound
    [jpeg_data] gives it: a turn needs the four marker bytes at [offset]
    and moves [offset] forward. *)
Lemma resource_blocks_total fuel : forall app offset,
  (length app < fuel + offset)%nat ->
  resource_blocks fuel app offset <> Raise OutOfFuel.
Proof.
  induction fuel as [|fuel IH]; intros app offset Hfuel;
    cbn [resource_blocks];
    destruct (bytes_eqb _ _) eqn:Hsig; try discriminate.
  - apply bool_decide_eq_true in Hsig. apply (f_equal length) in Hsig.
    unfold slice in Hsig. rewrite length_take, length_drop in Hsig.
    cbn in Hsig. lia.
  - unfold mbind, result_bind.
    apply rbind_fuel; [unfold Jpeg_i16; result_fuel | intros code].
    apply rbind_fuel; [apply getitem_fuel | intros name_len].
    apply rbind_fuel; [unfold Jpeg_i32; result_fuel | intros size].
    destruct (code =? 1028); [discriminate |].
    apply IH. rewrite !even_up_eq. lia.
Qed.

Lemma jpeg_data_total app : jpeg_data app <> Raise OutOfFuel.
Proof.
  unfold jpeg_data. destruct app as [segments|]; [| discriminate].
  destruct (segments !! _) as [app|]; [| discriminate].
  destruct (bytes_eqb _ _); [| discriminate].
  apply resource_blocks_total. lia.
Qed.

End FuelFacts.

(** ** The IPTC plugin: [getiptcinfo] *)

Section GetiptcinfoFacts.

Import Iptc.
Implicit Types (s : image) (data rest : bytes).

Lemma iptc_read_take (n : nat) s :
  fp_read (Z.of_nat n) s
  = (Ok (take n (remaining (fp s))),
     iptc_advance (length (take n (remaining (fp s)))) s).
Proof.
  unfold fp_read, read, iptc_advance, advance, remaining.
  assert ((Z.of_nat n <? 0) = false) as -> by (apply Z.ltb_ge; lia).
  by rewrite Nat2Z.id.
Qed.

(** [field] on a header with a bad marker or record number. *)
Lemma field_bad_syntax s b0 b1 b2 rest :
  remaining (fp s) = b0 :: b1 :: b2 :: rest ->
  b0 <> 28 \/ b1 < 1 \/ 9 < b1 ->
  (field s).1 = Raise (SyntaxError "invalid IPTC/NAA file").
Proof.
  intros Hrest Hbad. unfold field, mbind, M_bind, bind.
  change 5 with (Z.of_nat 5). rewrite iptc_read_take, Hrest. cbn.
  assert (negb (b0 =? 28) || (b1 <? 1) || (b1 >? 9) = true) as ->; [| done].
  rewrite Z.gtb_ltb.
  destruct Hbad as [H | [H | H]].
  - apply Z.eqb_neq in H. by rewrite H.
  - apply Z.ltb_lt in H. rewrite H. by rewrite orb_true_r.
  - apply Z.ltb_lt in H. rewrite H. by rewrite orb_true_r.
Qed.

(** [field] on a header with a size byte above 132. *)
Lemma field_bad_size s b1 b2 b3 rest :
  remaining (fp s) = 28 :: b1 :: b2 :: b3 :: rest ->
  1 <= b1 <= 9 -> 132 < b3 ->
  (field s).1 = Raise (IOError "illegal field length in IPTC/NAA file").
Proof.
  intros Hrest Hr Hb. unfold field, mbind, M_bind, bind.
  change 5 with (Z.of_nat 5). rewrite iptc_read_take, Hrest. cbn.
  assert ((b1 <? 1) = false) as -> by (apply Z.ltb_ge; lia).
  assert ((b1 >? 9) = false) as -> by (rewrite Z.gtb_ltb; apply Z.ltb_ge; lia).
  assert ((b3 >? 132) = true) as -> by (rewrite Z.gtb_ltb; apply Z.ltb_lt; lia).
  reflexivity.
Qed.

(** What the first header raises, [_open] raises. *)
Lemma open_raises_first s e :
  (field s).1 = Raise e -> (_open s).1 = Raise e.
Proof.
  intros H. unfold _open, mbind, M_bind, bind, gets.
  cbn [open_fields]. unfold mbind at 1 2, M_bind, bind, fp_tell, gets.
  destruct (field s) as [[x|e'] s1]; cbn in H; [discriminate |].
  injection H as ->. reflexivity.
Qed.

(** What [_open] raises and the handler does not name, the caller gets. *)
Lemma parse_chunk_raises data e :
  (_open (fake_image data)).1 = Raise e ->
  is_Index_or_KeyError e = false ->
  parse_chunk data = Raise e.
Proof.
  intros H He. unfold parse_chunk, try_except.
  destruct (_open (fake_image data)) as [[x|e'] s1]; cbn in H; [discriminate |].
  injection H as ->. rewrite He. reflexivity.
Qed.

Lemma getiptcinfo_located chunk im data :
  locate chunk im = Ok (Some data) ->
  getiptcinfo chunk im = (x ← parse_chunk data; Ok (Some x)).
Proof.
  intros H. unfold getiptcinfo.
  destruct im; [discriminate H | | | discriminate H]; by rewrite H.
Qed.

End GetiptcinfoFacts.

(** ** The IPTC plugin: where the code leaves the specification *)

Section Defects.

Import Iptc.

(** C9 fails on the code: [i] hands its argument to [bytes] inside a
    one-element tuple, which wants an integer, so every payload, being a
    bytes object, raises [TypeError]; [PAD] is not four zero bytes either.
    On the records of a 64 by 64 image [_open] raises [TypeError] where it
    derives the size, and the size stays as it was. *)
Theorem getint_type_error :
  (forall b, i (VBytes b) = Raise TypeError)
  /\ PAD <> [0; 0; 0; 0]
  /\ let r := _open (fake_image (concat (encode_record <$> dimension_stream))) in
     r.1 = Raise TypeError
     /\ info r.2 !! (3, 20) = Some (VBytes [0; 0; 0; 64])
     /\ info r.2 !! (3, 30) = Some (VBytes [0; 0; 0; 64])
     /\ getint (3, 20) r.2 = (Raise TypeError, r.2)
     /\ size r.2 = (0, 0).
Proof.
  split; [reflexivity |]. split; [discriminate |].
  vm_compute. repeat split; reflexivity.
Qed.

(** C5 fails on the code: the second record of tag (2, 25) is in the
    extended form, whose length [field] hands to [i], and [i] raises
    [TypeError] on every bytes object.  The loop of [_open] stops there
    with the tag still mapped to the scalar A, and [getiptcinfo] on a TIFF
    object with this block raises [TypeError]: the payload B is never
    appended. *)
Theorem extended_record_type_error :
  let s := fake_image extended_stream in
  let r := open_fields (S (length (remaining (fp s)))) s in
  r.1 = Raise TypeError
  /\ info r.2 !! (2, 25) = Some (VBytes [65])
  /\ remaining (fp r.2) = [66]
  /\ (_open s).1 = Raise TypeError
  /\ getiptcinfo 33723 (tiff_with extended_stream) = Raise TypeError.
Proof.
  vm_compute. repeat split; reflexivity.
Qed.

End Defects.

(** ** The IPTC plugin: the loops of [load] end *)

Section LoadFacts.

Import Iptc.

Variable ImageFile_load : M world unit.
Variable mktemp : files_t -> string.
Variable open_ppm Image_open_load : string -> files_t -> result core_image.

Implicit Types (w : world) (outfile : string).

(** The inner loop ends within [size] turns and only moves the cursor
    forward; the files are as they were. *)
Lemma copy_payload_total fuel : forall o size w,
  size <= Z.of_nat fuel ->
  exists r w',
    copy_payload fuel o size w = (r, w')
    /\ r <> Raise OutOfFuel
    /\ (left_in w'.1 <= left_in w.1)%nat
    /\ w'.2 = w.2.
Proof.
  induction fuel as [|fuel IH]; intros o size w Hsize.
  - cbn [copy_payload].
    assert ((size >? 0) = false) as ->
      by (rewrite Z.gtb_ltb; apply Z.ltb_ge; lia).
    exists (Ok o), w. repeat split; [discriminate | lia].
  - cbn [copy_payload]. destruct (size >? 0) eqn:Hpos;
      [| exists (Ok o), w; repeat split; [discriminate | lia]].
    unfold mbind at 1, M_bind, bind, self.
    destruct (fp_read_left (Z.min size 8192) w.1)
      as (got & s1 & -> & Hleft & _).
    case_bool_decide as Hgot.
    { exists (Ok o), (s1, w.2). repeat split; [discriminate | cbn; lia]. }
    assert (Hlen : (1 <= length got)%nat)
      by (destruct got; [done | cbn; lia]).
    destruct (IH (file_write o got) (size - Z.of_nat (length got)) (s1, w.2))
      as (r & w' & Hrun & Hr & Hw' & Hfiles); [lia |].
    exists r, w'. cbn [fst snd] in *.
    repeat split; [exact Hrun | exact Hr | lia | exact Hfiles].
Qed.

(** The outer loop ends within the bound [load] gives it, and leaves the
    files as they were. *)
Lemma stage_total fuel : forall o w,
  (left_in w.1 < fuel)%nat ->
  exists r w',
    stage fuel o w = (r, w') /\ r <> Raise OutOfFuel /\ w'.2 = w.2.
Proof.
  induction fuel as [|fuel IH]; intros o w Hfuel; [lia |].
  cbn [stage]. unfold mbind at 1, M_bind, bind, self.
  pose proof (terminates_field w.1) as Hterm.
  destruct (field w.1) as [[[type size]|e] s1] eqn:Hfield;
    [| cbn in *; eexists _, _; split; [reflexivity |];
       split; [congruence | reflexivity]].
  case_bool_decide as Htype;
    [| eexists _, _; split; [reflexivity |];
       split; [discriminate | reflexivity]].
  subst type. apply field_progress in Hfield.
  unfold mbind, M_bind, bind.
  destruct (copy_payload_total (Z.to_nat size) o size (s1, w.2))
    as (r & w' & -> & Hr & Hw' & Hfiles); [lia |].
  destruct r as [o'|e];
    [| eexists _, _; split; [reflexivity |]; split; [congruence | exact Hfiles]].
  destruct (IH o' w') as (r & w2 & -> & Hr2 & Hfiles2);
    [cbn [fst snd] in *; lia |].
  exists r, w2. split; [reflexivity |]. split; [exact Hr2 |].
  rewrite Hfiles2. exact Hfiles.
Qed.

(** What staging leaves: the file it names, written at [o.close()], and
    the other files as they were. *)
Lemma stage_file_result encoding offset s files :
  exists r w',
    stage_file mktemp encoding offset (s, files) = (r, w')
    /\ r <> Raise OutOfFuel
    /\ ((exists o, r = Ok (mktemp files)
                   /\ w'.2 = <[mktemp files := o]> files)
        \/ ((exists e, r = Raise e)
            /\ w'.2 = <[mktemp files := []]> files)).
Proof.
  unfold stage_file, mbind, M_bind, bind, fp_seek, modify, gets, file_create,
    self.
  cbn [fst snd]. unfold modify at 1. cbn [fst snd].
  set (outfile := mktemp files).
  case_bool_decide; unfold ret; cbn [fst snd].
  all: match goal with
       | |- context [stage ?f ?o ?w0] =>
         destruct (stage_total f o w0 ltac:(unfold left_in; cbn; lia))
           as (r & w3 & -> & Hr & Hfiles)
       end.
  all: destruct r as [o|e]; cbn [fst snd] in *.
  all: eexists _, _; (split; [reflexivity |]).
  all: split; [first [discriminate | congruence] |].
  all: first
    [ left; eexists; split; [reflexivity |];
      unfold file_close, modify; cbn [fst snd]; rewrite Hfiles;
      unfold world, files_t, bytes in *;
      rewrite lookup_insert_eq, insert_insert_eq; reflexivity
    | right; split; [by eexists | exact Hfiles] ].
Qed.

(** [load] never exhausts the bound of a loop, if what it calls outside
    the plugin does not. *)
Lemma load_total :
  terminates ImageFile_load ->
  (forall outfile files, Image_open_load outfile files <> Raise OutOfFuel) ->
  terminates (load ImageFile_load mktemp open_ppm Image_open_load).
Proof.
  intros Hload Hopen w. unfold load, mbind at 1, M_bind, bind at 1, self, gets.
  cbn [fst snd].
  destruct (tile w.1) as [|[[[name|name] args] box] [|t ts]]; try apply Hload.
  case_bool_decide; [| apply Hload].
  destruct args as [| encoding offset]; [cbn; discriminate |].
  unfold mbind, M_bind, bind. destruct w as [s files]. cbn [fst snd].
  destruct (stage_file_result encoding offset s files)
    as (r & w3 & -> & Hr & _).
  destruct r as [outfile|e]; [| cbn in *; congruence].
  unfold decode.
  destruct (open_ppm _ _) as [c|e]; [cbn; discriminate |].
  specialize (Hopen outfile w3.2).
  destruct (Image_open_load _ _) as [c|e']; cbn in *; congruence.
Qed.

End LoadFacts.

(** ** The IPTC plugin: the staged file of [load] *)

Section Cleanup.

Import Iptc.

Variable ImageFile_load : M world unit.
Variable mktemp : files_t -> string.
Variable open_ppm Image_open_load : string -> files_t -> result core_image.


End Cleanup.



(** ** The icon plugin: the whole directory *)

Section IcoMore.

Context {targs : Type}.
Implicit Types (im : Ico.image targs) (m s e : bytes) (es : list bytes).

(** The little-endian readers undo the little-endian encoders, whatever
    follows the encoded integer. *)
Lemma ico_i16_le16 n rest :
  0 <= n < 65536 -> Ico.i16 (le16 n ++ rest) = Ok n.
Proof.
  intros Hn. cbn. rewrite Z.shiftl_mul_pow2 by lia. change (2 ^ 8) with 256.
  f_equal. Z.div_mod_to_equations. lia.
Qed.

Lemma ico_i32_le32 n rest :
  0 <= n < 4294967296 -> Ico.i32 (le32 n ++ rest) = Ok n.
Proof.
  intros Hn. cbn. rewrite !Z.shiftl_mul_pow2 by lia.
  change (2 ^ 8) with 256. change (2 ^ 16) with 65536.
  change (2 ^ 24) with 16777216.
  f_equal. Z.div_mod_to_equations. lia.
Qed.

(** X1: [i32] of the icon plugin decodes what a little-endian encoder
    writes and raises [IndexError] exactly on fewer than four bytes. *)
Theorem ico_i32_spec :
  (forall n rest, 0 <= n < 4294967296 -> Ico.i32 (le32 n ++ rest) = Ok n)
  /\ (forall c : bytes,
        (length c < 4)%nat <-> Ico.i32 c = Raise IndexError).
Proof.
  split; [apply ico_i32_le32 |].
  intros c. destruct c as [|c0 [|c1 [|c2 [|c3 c]]]]; cbn; split;
    first [reflexivity | lia | discriminate].
Qed.

Lemma ico_read_take (n : nat) im :
  Ico.fp_read (Z.of_nat n) im
  = (Ok (take n (remaining (Ico.fp im))),
     ico_advance (length (take n (remaining (Ico.fp im)))) im).
Proof.
  unfold Ico.fp_read, read, ico_advance, advance, remaining.
  assert ((Z.of_nat n <? 0) = false) as -> by (apply Z.ltb_ge; lia).
  by rewrite Nat2Z.id.
Qed.

(** X2: a file whose first four bytes are not the magic number is
    refused with "not an ICO file"; the bitmap decoder does not run and
    only the bytes of the header read are consumed. *)
Theorem ico_open_bad_magic (_bitmap : Z -> M (Ico.image targs) unit) im :
  take 4 (remaining (Ico.fp im)) <> [0; 0; 1; 0] ->
  Ico._open _bitmap im
  = (Raise (SyntaxError "not an ICO file"),
     ico_advance (length (take 6 (remaining (Ico.fp im)))) im).
Proof.
  intros Hmagic.
  unfold Ico._open, Ico.read_directory, mbind, M_bind, bind.
  change 6 with (Z.of_nat 6). rewrite ico_read_take.
  unfold Ico._accept, bytes_eqb. rewrite take_take.
  change (4 `min` 6)%nat with 4%nat.
  by rewrite bool_decide_eq_false_2.
Qed.

Lemma bind_assoc {S A B C} (m : M S A) (f : A -> M S B) (g : B -> M S C) st :
  bind (bind m f) g st = bind m (fun a => bind (f a) g) st.
Proof. unfold bind. by destruct (m st) as [[a|e] st']. Qed.

Lemma bind_ext {S A B} (m : M S A) (f g : A -> M S B) st :
  (forall a st', f a st' = g a st') -> bind m f st = bind m g st.
Proof. intros H. unfold bind. destruct (m st) as [[a|e] st']; [apply H | done]. Qed.

(** The loop over [a + b] entries is the loop over [a] entries and then
    the loop over [b] entries. *)
Lemma pick_add (a b : nat) : forall m im,
  Ico.pick (a + b) m im = bind (Ico.pick a m) (Ico.pick b) im.
Proof.
  induction a as [|a IH]; intros m im; [reflexivity |].
  cbn [Nat.add Ico.pick]. unfold mbind, M_bind.
  rewrite bind_assoc. apply bind_ext. intros m' im'. apply IH.
Qed.

(** The loop over a directory of whole entries, from no selection. *)
Lemma pick_directory e es rest im :
  length e = 16%nat ->
  Forall (fun e => length e = 16%nat) es ->
  remaining (Ico.fp im) = e ++ concat es ++ rest ->
  Ico.pick (S (length es)) [] im
  = (Ok (selected (e :: es)), ico_advance (16 * S (length es)) im).
Proof.
  intros He Hes Hrest.
  cbn [Ico.pick selected]. unfold mbind, M_bind, bind.
  assert (Ico.pick_step [] im = (Ok e, ico_advance 16 im)) as ->.
  { unfold Ico.pick_step, mbind, M_bind, bind.
    change 16 with (Z.of_nat 16). rewrite <- He at 1.
    by rewrite (ico_read_prefix _ _ _ Hrest), He. }
  erewrite pick_entries; [| done | done |].
  - rewrite ico_advance_add. do 2 f_equal. lia.
  - unfold ico_advance, Ico.set_fp. cbn [Ico.fp]. rewrite <- He.
    by apply remaining_advance.
Qed.

Lemma length_selected e es :
  length e = 16%nat ->
  Forall (fun e => length e = 16%nat) es ->
  length (selected (e :: es)) = 16%nat.
Proof.
  cbn [selected]. revert e.
  induction es as [|s es IH]; intros e He Hes; [done |].
  inversion Hes; subst. cbn [fold_left]. apply IH; [| done].
  by apply replaces_length.
Qed.

Lemma i32_of_entry (x : bytes) :
  length x = 16%nat -> exists off, Ico.i32 (drop 12 x) = Ok off.
Proof.
  intros Hx. assert (Hd : length (drop 12 x) = 4%nat)
    by (rewrite length_drop; lia).
  destruct (drop 12 x) as [|a [|b [|c [|d l]]]]; try discriminate.
  eexists. reflexivity.
Qed.

(** X3: on a file that holds the header, the announced number of whole
    entries and anything after them, the first half of [_open] reads
    exactly the header and the directory and hands the bitmap decoder the
    little-endian 32-bit integer in bytes 12 to 15 of the selected
    entry. *)
Theorem ico_read_directory es rest im :
  es <> [] ->
  Forall (fun e => length e = 16%nat) es ->
  Z.of_nat (length es) < 65536 ->
  remaining (Ico.fp im)
  = ico_header (Z.of_nat (length es)) ++ concat es ++ rest ->
  exists off,
    Ico.i32 (drop 12 (selected es)) = Ok off
    /\ Ico.read_directory im
       = (Ok off, ico_advance (6 + 16 * length es) im).
Proof.
  intros Hne Hes Hcount Hrest.
  destruct es as [|e es]; [done |]. inversion Hes as [|? ? He Hes']; subst.
  destruct (i32_of_entry (selected (e :: es))) as [off Hoff];
    [by apply length_selected |].
  exists off. split; [exact Hoff |].
  unfold Ico.read_directory, mbind, M_bind, bind.
  change 6 with (Z.of_nat (length (ico_header (Z.of_nat (length (e :: es)))))).
  rewrite (ico_read_prefix _ _ _ Hrest).
  change (negb (Ico._accept (ico_header (Z.of_nat (length (e :: es))))))
    with false. cbn iota.
  change (drop 4 (ico_header (Z.of_nat (length (e :: es)))))
    with (le16 (Z.of_nat (length (e :: es))) ++ []).
  unfold lift at 1. rewrite ico_i16_le16 by lia.
  rewrite Nat2Z.id. cbn [length].
  rewrite (pick_directory e es rest); [| done | done |].
  - unfold lift. by rewrite Hoff, ico_advance_add.
  - cbn [concat] in Hrest. rewrite <- app_assoc in Hrest.
    exact (remaining_advance _ _ _ Hrest).
Qed.

Lemma length_entries es :
  Forall (fun e => length e = 16%nat) es ->
  length (concat es) = (16 * length es)%nat.
Proof.
  induction 1 as [|e es He Hes IH]; [done |].
  cbn [concat length]. rewrite length_app. lia.
Qed.

(** The loop at the end of the file: without a selection it reads
    nothing and selects nothing; with one, the first turn raises. *)
Lemma pick_eof_none (k : nat) : forall im,
  remaining (Ico.fp im) = [] -> Ico.pick k [] im = (Ok [], im).
Proof.
  induction k as [|k IH]; intros im Hrest; [reflexivity |].
  cbn [Ico.pick]. unfold mbind, M_bind, bind, Ico.pick_step.
  unfold mbind, M_bind, bind.
  change 16 with (Z.of_nat 16). rewrite ico_read_take, Hrest.
  cbn [take length]. rewrite ico_advance_0. cbn. by apply IH.
Qed.

Lemma pick_eof_some (k : nat) m im :
  m <> [] -> remaining (Ico.fp im) = [] ->
  (Ico.pick (S k) m im).1 = Raise IndexError.
Proof.
  intros Hm Hrest. cbn [Ico.pick].
  unfold mbind, M_bind, bind, Ico.pick_step. unfold mbind, M_bind, bind.
  change 16 with (Z.of_nat 16). rewrite ico_read_take, Hrest.
  destruct m; [done | reflexivity].
Qed.

(** X4: a directory that announces more entries than the file holds
    makes [_open] raise [IndexError] before the bitmap decoder runs:
    from the first missing entry if an entry is selected, from the empty
    selection otherwise. *)
Theorem ico_truncated_directory es (n : Z) im :
  Forall (fun e => length e = 16%nat) es ->
  Z.of_nat (length es) < n < 65536 ->
  remaining (Ico.fp im) = ico_header n ++ concat es ->
  (Ico.read_directory im).1 = Raise IndexError.
Proof.
  intros Hes Hn Hrest.
  unfold Ico.read_directory, mbind, M_bind, bind.
  change 6 with (Z.of_nat (length (ico_header n))).
  rewrite (ico_read_prefix _ _ _ Hrest).
  change (negb (Ico._accept (ico_header n))) with false. cbn iota.
  change (drop 4 (ico_header n)) with (le16 n ++ []).
  unfold lift at 1. rewrite ico_i16_le16 by lia.
  apply remaining_advance in Hrest. cbn [length] in Hrest.
  set (im1 := ico_advance (length (ico_header n)) im).
  change (remaining (Ico.fp im1) = concat es) in Hrest.
  replace (Z.to_nat n) with (length es + S (Z.to_nat n - S (length es)))%nat
    by lia.
  rewrite pick_add. unfold bind.
  destruct es as [|e es].
  - cbn [length]. rewrite (pick_eof_none 0 im1 Hrest). cbn iota.
    by rewrite (pick_eof_none _ im1 Hrest).
  - inversion Hes as [|? ? He Hes']; subst. cbn [length].
    cbn [concat] in Hrest.
    rewrite (pick_directory e es []) by (by rewrite ?app_nil_r).
    cbn iota.
    set (k := (Z.to_nat n - S (S (length es)))%nat).
    set (im2 := ico_advance (16 * S (length es)) im1).
    assert (Hraise : (Ico.pick (S k) (selected (e :: es)) im2).1
                     = Raise IndexError).
    { apply pick_eof_some.
      - pose proof (length_selected e es He Hes') as Hlen.
        intros Hnil. rewrite Hnil in Hlen. discriminate.
      - subst im2.
        replace (16 * S (length es))%nat with (length (e ++ concat es))
          by (rewrite length_app, He, (length_entries es Hes'); lia).
        apply (remaining_advance _ []). by rewrite app_nil_r. }
    destruct (Ico.pick (S k) _ im2) as [[m|x] im3]; cbn in Hraise;
      [discriminate |].
    by injection Hraise as ->.
Qed.

Lemma replaces_dominates m s :
  (2 <= length m)%nat -> (2 <= length s)%nat ->
  replaces m s = true <-> dominates s m.
Proof.
  intros Hm Hs.
  destruct m as [|mw [|mh m']]; cbn in Hm; try lia.
  destruct s as [|sw [|sh s']]; cbn in Hs; try lia.
  unfold dominates, entry_width, entry_height. cbn.
  rewrite andb_true_iff, !Z.gtb_ltb, !Z.ltb_lt. done.
Qed.

(** What the selection keeps while it goes through the entries. *)
Lemma fold_selected es : forall m,
  length m = 16%nat ->
  Forall (fun e => length e = 16%nat) es ->
  let r := fold_left (fun m s => if replaces m s then s else m) es m in
  (r = m \/ r ∈ es)
  /\ entry_width m <= entry_width r
  /\ entry_height m <= entry_height r
  /\ Forall (fun e => ~ dominates e r) es.
Proof.
  induction es as [|e es IH]; intros m Hm Hes.
  - cbn. repeat split; (by left) || lia || constructor.
  - inversion Hes as [|? ? He Hes']; subst. cbn [fold_left].
    destruct (IH (if replaces m e then e else m)
                (replaces_length m e Hm He) Hes')
      as (Hin & Hw & Hh & Hall).
    set (r := fold_left _ es _) in *.
    pose proof (replaces_dominates m e ltac:(lia) ltac:(lia)) as Hrep.
    destruct (replaces m e) eqn:Hre.
    + destruct (proj1 Hrep eq_refl) as [Hdw Hdh].
      repeat split; [| lia | lia |].
      * right. destruct Hin as [-> | Hin]; [by left | by right].
      * constructor; [| done]. intros [? ?]. lia.
    + repeat split; [| lia | lia |].
      * destruct Hin as [-> | Hin]; [by left | right; by right].
      * constructor; [| done]. intros [Hdw Hdh].
        assert (dominates e m) as Hd by (split; lia).
        apply Hrep in Hd. discriminate.
Qed.

(** X5: the entry that the loop of [_open] selects is one of the
    entries of the directory, and no entry of the directory is strictly
    wider and strictly higher than it. *)
Theorem ico_selected_not_dominated es rest im :
  es <> [] ->
  Forall (fun e => length e = 16%nat) es ->
  remaining (Ico.fp im) = concat es ++ rest ->
  exists m,
    (Ico.pick (length es) [] im).1 = Ok m
    /\ m ∈ es
    /\ Forall (fun e => ~ dominates e m) es.
Proof.
  intros Hne Hes Hrest. destruct es as [|e es]; [done |].
  inversion Hes as [|? ? He Hes']; subst.
  cbn [concat] in Hrest. rewrite <- app_assoc in Hrest.
  cbn [length]. rewrite (pick_directory e es rest im He Hes' Hrest).
  exists (selected (e :: es)). split; [done |].
  destruct (fold_selected es e He Hes') as (Hin & Hw & Hh & Hall).
  cbn [selected]. split.
  - destruct Hin as [-> | Hin]; [by left | by right].
  - constructor; [| done]. intros [? ?]. lia.
Qed.

(** X6: an entry whose width byte or height byte is 0, which stands for
    256 pixels, never replaces a selected entry: the loop compares the
    bytes as they are. *)
Theorem ico_zero_never_replaces m e rest im :
  length m = 16%nat -> length e = 16%nat ->
  remaining (Ico.fp im) = e ++ rest ->
  0 <= entry_width m -> 0 <= entry_height m ->
  entry_width e = 0 \/ entry_height e = 0 ->
  Ico.pick_step m im = (Ok m, ico_advance 16 im).
Proof.
  intros Hm He Hrest Hw Hh Hzero.
  rewrite (pick_step_entry m e rest im Hm He Hrest).
  destruct (replaces m e) eqn:Hre; [| done].
  apply replaces_dominates in Hre as [? ?]; lia.
Qed.

End IcoMore.

(** The integer 70 in four bytes, and two bytes alone. *)
Lemma ico_i32_spec_witness :
  0 <= 70 < 4294967296
  /\ Ico.i32 (le32 70 ++ [1]) = Ok 70
  /\ (length (le16 70) < 4)%nat
  /\ Ico.i32 (le16 70) = Raise IndexError.
Proof.
  assert (Hn : 0 <= 70 < 4294967296) by lia.
  assert (Hl : (length (le16 70) < 4)%nat) by (cbn; lia).
  split; [exact Hn |]. split; [| split; [exact Hl |]].
  - exact (proj1 ico_i32_spec 70 [1] Hn).
  - exact (proj1 (proj2 ico_i32_spec (le16 70)) Hl).
Defined.

(** A file that starts like a bitmap file. *)
Lemma ico_open_bad_magic_witness :
  take 4 (remaining (Ico.fp (ico_file [66; 77; 0; 0; 0; 0; 0; 0])))
  <> [0; 0; 1; 0]
  /\ Ico._open bitmap_64x128 (ico_file [66; 77; 0; 0; 0; 0; 0; 0])
     = (Raise (SyntaxError "not an ICO file"),
        ico_advance 6 (ico_file [66; 77; 0; 0; 0; 0; 0; 0])).
Proof.
  assert (H : take 4 (remaining (Ico.fp (ico_file [66; 77; 0; 0; 0; 0; 0; 0])))
              <> [0; 0; 1; 0]) by discriminate.
  split; [exact H |].
  exact (ico_open_bad_magic bitmap_64x128
           (ico_file [66; 77; 0; 0; 0; 0; 0; 0]) H).
Defined.

(** The first example directory behind its header: the data offset of
    the entry (32, 32) is 70. *)
Lemma ico_read_directory_witness :
  let file := ico_file (ico_header 3 ++ concat ico_dir_a ++ [7; 7]) in
  ico_dir_a <> []
  /\ Forall (fun e => length e = 16%nat) ico_dir_a
  /\ exists off,
       Ico.i32 (drop 12 (selected ico_dir_a)) = Ok off
       /\ off = 70
       /\ Ico.read_directory file = (Ok off, ico_advance 54 file).
Proof.
  intros file.
  assert (Hne : ico_dir_a <> []) by discriminate.
  assert (Hes : Forall (fun e => length e = 16%nat) ico_dir_a)
    by (repeat constructor).
  assert (Hc : Z.of_nat (length ico_dir_a) < 65536) by (cbn; lia).
  split; [exact Hne |]. split; [exact Hes |].
  destruct (ico_read_directory ico_dir_a [7; 7] file Hne Hes Hc eq_refl)
    as (off & Hoff & Hread).
  exists off. split; [exact Hoff |]. split; [| exact Hread].
  cbn in Hoff. by injection Hoff.
Defined.

(** Three entries announced, one present. *)
Lemma ico_truncated_directory_witness :
  let file := ico_file (ico_header 3 ++ concat [ico_entry 16 16 54]) in
  Forall (fun e => length e = 16%nat) [ico_entry 16 16 54]
  /\ (Ico.read_directory file).1 = Raise IndexError.
Proof.
  intros file.
  assert (Hes : Forall (fun e => length e = 16%nat) [ico_entry 16 16 54])
    by (repeat constructor).
  assert (Hn : Z.of_nat (length [ico_entry 16 16 54]) < 3 < 65536)
    by (cbn; lia).
  split; [exact Hes |].
  exact (ico_truncated_directory [ico_entry 16 16 54] 3 file Hes Hn eq_refl).
Defined.

(** The first example directory: (48, 32) is wider than the selected
    (32, 32) but not higher. *)
Lemma ico_selected_not_dominated_witness :
  let file := ico_file (concat ico_dir_a) in
  ico_dir_a <> []
  /\ Forall (fun e => length e = 16%nat) ico_dir_a
  /\ exists m,
       (Ico.pick (length ico_dir_a) [] file).1 = Ok m
       /\ m ∈ ico_dir_a
       /\ Forall (fun e => ~ dominates e m) ico_dir_a.
Proof.
  intros file.
  assert (Hne : ico_dir_a <> []) by discriminate.
  assert (Hes : Forall (fun e => length e = 16%nat) ico_dir_a)
    by (repeat constructor).
  split; [exact Hne |]. split; [exact Hes |].
  exact (ico_selected_not_dominated ico_dir_a [] file Hne Hes eq_refl).
Defined.

(** An entry of 256 by 256 pixels after one of 16 by 16. *)
Lemma ico_zero_never_replaces_witness :
  let file := ico_file (ico_entry 0 0 70) in
  0 <= entry_width (ico_entry 16 16 54)
  /\ entry_width (ico_entry 0 0 70) = 0
  /\ Ico.pick_step (ico_entry 16 16 54) file
     = (Ok (ico_entry 16 16 54), ico_advance 16 file).
Proof.
  intros file.
  assert (Hw : 0 <= entry_width (ico_entry 16 16 54)) by (cbn; lia).
  assert (Hh : 0 <= entry_height (ico_entry 16 16 54)) by (cbn; lia).
  split; [exact Hw |]. split; [reflexivity |].
  exact (ico_zero_never_replaces (ico_entry 16 16 54) (ico_entry 0 0 70) []
           file eq_refl eq_refl eq_refl Hw Hh (or_introl eq_refl)).
Defined.

(** ** The IPTC plugin: helpers, headers and the mapping *)

Section IptcMore.

Import Iptc.
Implicit Types (s : image) (rest : bytes) (t : tag_t).

(** X7: [i16] and [i32] of the IPTC plugin decode what a big-endian
    encoder writes, whatever follows, and [i16] raises [IndexError]
    exactly on fewer than two bytes. *)
Theorem iptc_big_endian :
  (forall n rest, 0 <= n < 65536 -> i16 (be16 n ++ rest) = Ok n)
  /\ (forall n rest, 0 <= n < 4294967296 -> i32 (be32 n ++ rest) = Ok n)
  /\ (forall c : bytes, (length c < 2)%nat <-> i16 c = Raise IndexError).
Proof.
  split; [| split].
  - intros n rest Hn. cbn. by rewrite be16_value.
  - intros n rest Hn. cbn. by rewrite be32_value.
  - intros c. destruct c as [|c0 [|c1 c]]; cbn; split;
      first [reflexivity | lia | discriminate].
Qed.

(** X8: [field] answers with a tag only for a header that starts with
    the marker 0x1C and has a record number from 1 to 9, and then the
    size is 0 for the size byte 128 or the 16-bit integer of the two size
    bytes for a size byte below 128; it never answers with a size from the
    extended form. *)
Theorem field_tag_inversion s t size s' :
  field s = (Ok (Some t, size), s') ->
  exists b3 rest,
    remaining (fp s) = 28 :: t.1 :: t.2 :: b3 :: rest
    /\ 1 <= t.1 <= 9
    /\ ((b3 = 128 /\ size = 0)
        \/ (b3 < 128
            /\ exists b4 rest', rest = b4 :: rest' /\ size = b3 * 256 + b4)).
Proof.
  unfold field, mbind, M_bind, bind. change 5 with (Z.of_nat 5).
  rewrite iptc_read_take.
  destruct (remaining (fp s)) as [|b0 [|b1 [|b2 [|b3 [|b4 rest]]]]];
    cbn; try discriminate.
  all: destruct (negb (b0 =? 28) || (b1 <? 1) || (b1 >? 9)) eqn:Hsyn;
    cbn; try discriminate.
  all: apply orb_false_iff in Hsyn as [Hsyn H9];
    apply orb_false_iff in Hsyn as [H28 H1];
    apply negb_false_iff, Z.eqb_eq in H28;
    apply Z.ltb_ge in H1; rewrite Z.gtb_ltb in H9; apply Z.ltb_ge in H9.
  all: destruct (b3 >? 132) eqn:H132; cbn; try discriminate.
  all: destruct (b3 =? 128) eqn:H128; cbn.
  all: try (apply Z.eqb_eq in H128; intros H; injection H as <- <- _;
            exists b3; eexists; subst b0;
            (split; [reflexivity |]); (split; [cbn; lia |]); by left).
  all: destruct (b3 >? 128) eqn:Hext; cbn.
  all: try (unfold fp_read; destruct (read _ _); cbn; discriminate).
  all: try discriminate.
  intros H. injection H as <- <- _.
  rewrite Z.gtb_ltb in Hext. apply Z.ltb_ge in Hext. apply Z.eqb_neq in H128.
  exists b3, (b4 :: rest). subst b0.
  split; [reflexivity |]. split; [cbn; lia |]. right.
  split; [lia |]. exists b4, rest. split; [reflexivity |].
  rewrite Z.shiftl_mul_pow2 by lia. change (2 ^ 8) with 256. lia.
Qed.

(** X9: a header in the extended form, with a size byte from 129 to
    132, makes [field] raise [TypeError]: [i] is given the bytes that
    follow the header and passes them to [bytes] inside a tuple. *)
Theorem field_extended_raises s r d b3 rest :
  remaining (fp s) = 28 :: r :: d :: b3 :: rest ->
  1 <= r <= 9 ->
  128 < b3 <= 132 ->
  (field s).1 = Raise TypeError.
Proof.
  intros Hrest Hr Hb. unfold field, mbind, M_bind, bind.
  change 5 with (Z.of_nat 5). rewrite iptc_read_take, Hrest. cbn.
  assert ((r <? 1) = false) as -> by (apply Z.ltb_ge; lia).
  assert ((r >? 9) = false) as -> by (rewrite Z.gtb_ltb; apply Z.ltb_ge; lia).
  assert ((b3 >? 132) = false) as -> by (rewrite Z.gtb_ltb; apply Z.ltb_ge; lia).
  assert ((b3 =? 128) = false) as -> by (apply Z.eqb_neq; lia).
  assert ((b3 >? 128) = true) as -> by (rewrite Z.gtb_ltb; apply Z.ltb_lt; lia).
  reflexivity.
Qed.

(** X10: storing a record leaves every other tag of the mapping as it
    was, and the tag of the record is a key afterwards: the keys of the
    mapping only grow, by the tag stored. *)
Theorem info_add_other t (d : value) (x : gmap tag_t value) :
  (forall t', t' <> t -> info_add t d x !! t' = x !! t')
  /\ is_Some (info_add t d x !! t)
  /\ dom (info_add t d x) = {[t]} ∪ dom x.
Proof.
  unfold info_add.
  destruct (x !! t) as [[| | |l]|] eqn:Hx; repeat split;
    try (intros t' Hne; by rewrite lookup_insert_ne);
    try (rewrite lookup_insert_eq; by eexists);
    by rewrite dom_insert_L.
Qed.

End IptcMore.

(** The integers 300 and 70000, and one byte alone. *)
Lemma iptc_big_endian_witness :
  Iptc.i16 (be16 300 ++ [9]) = Ok 300
  /\ Iptc.i32 (be32 70000 ++ []) = Ok 70000
  /\ Iptc.i16 [28] = Raise IndexError.
Proof.
  assert (H16 : 0 <= 300 < 65536) by lia.
  assert (H32 : 0 <= 70000 < 4294967296) by lia.
  assert (Hl : (length [28] < 2)%nat) by (cbn; lia).
  split; [exact (proj1 iptc_big_endian 300 [9] H16) |].
  split; [exact (proj1 (proj2 iptc_big_endian) 70000 [] H32) |].
  exact (proj1 (proj2 (proj2 iptc_big_endian) [28]) Hl).
Defined.

(** A header of tag (2, 5) that announces ten bytes. *)
Lemma field_tag_inversion_witness :
  Iptc.field (Iptc.fake_image [28; 2; 5; 0; 10])
  = (Ok (Some (2, 5), 10), iptc_advance 5 (Iptc.fake_image [28; 2; 5; 0; 10]))
  /\ exists b3 rest,
       remaining (Iptc.fp (Iptc.fake_image [28; 2; 5; 0; 10]))
       = 28 :: 2 :: 5 :: b3 :: rest
       /\ 1 <= 2 <= 9
       /\ ((b3 = 128 /\ 10 = 0)
           \/ (b3 < 128
               /\ exists b4 rest', rest = b4 :: rest' /\ 10 = b3 * 256 + b4)).
Proof.
  split; [reflexivity |].
  exact (field_tag_inversion (Iptc.fake_image [28; 2; 5; 0; 10]) (2, 5) 10
           (iptc_advance 5 (Iptc.fake_image [28; 2; 5; 0; 10])) eq_refl).
Defined.

(** The size byte 130 followed by the two bytes of 300. *)
Lemma field_extended_raises_witness :
  1 <= 2 <= 9 /\ 128 < 130 <= 132
  /\ (Iptc.field (Iptc.fake_image [28; 2; 5; 130; 0; 1; 44])).1
     = Raise TypeError.
Proof.
  assert (Hr : 1 <= 2 <= 9) by lia.
  assert (Hb : 128 < 130 <= 132) by lia.
  split; [exact Hr |]. split; [exact Hb |].
  exact (field_extended_raises (Iptc.fake_image [28; 2; 5; 130; 0; 1; 44])
           2 5 130 [0; 1; 44] eq_refl Hr Hb).
Defined.

(** A second keyword next to a caption. *)
Lemma info_add_other_witness :
  (2, 120) <> (2, 25)
  /\ Iptc.info_add (2, 25) (Iptc.VBytes [66])
       (<[(2, 25) := Iptc.VBytes [65]]> {[ (2, 120) := Iptc.VBytes [67] ]})
     !! (2, 120)
     = Some (Iptc.VBytes [67]).
Proof.
  assert (Hne : (2, 120) <> ((2, 25) : Iptc.tag_t)) by discriminate.
  split; [exact Hne |].
  exact (proj1 (info_add_other (2, 25) (Iptc.VBytes [66])
                  (<[(2, 25) := Iptc.VBytes [65]]>
                     {[ (2, 120) := Iptc.VBytes [67] ]}))
           (2, 120) Hne).
Defined.

(** ** The IPTC plugin: [_open] as a whole *)

Section OpenMore.

Import Iptc.
Implicit Types (s : image) (r : record_t) (rs pre : list record_t)
  (t : tag_t) (rest tail : bytes).

Lemma iptc_advance_0 s : iptc_advance 0 s = s.
Proof.
  destruct s as [[d p] ? ? ? ? ?]. unfold iptc_advance, set_fp, advance.
  cbn. by rewrite Nat.add_0_r.
Qed.

(** One turn of the loop of [_open] on a descriptive record. *)
Lemma open_fields_step r rest s :
  descriptive r ->
  remaining (fp s) = encode_record r ++ rest ->
  exists s1,
    remaining (fp s1) = rest
    /\ s_pos (fp s1) = (s_pos (fp s) + length (encode_record r))%nat
    /\ info s1 = info_add r.1 (tagdata_of r.2) (info s)
    /\ forall fuel, open_fields (S fuel) s = open_fields fuel s1.
Proof.
  intros Hr Hrest.
  pose proof (field_record r rest s Hr Hrest) as Hfield.
  assert (Hpay : remaining (fp (iptc_advance 5 s)) = r.2 ++ rest).
  { unfold encode_record in Hrest. rewrite <- app_assoc in Hrest.
    exact (remaining_iptc_advance [_; _; _; _; _] _ s Hrest). }
  set (s1 := iptc_advance 5 s) in *.
  set (s2 := iptc_advance (length r.2) s1).
  set (s3 := if negb (Z.of_nat (length r.2) =? 0) then s2 else s1).
  assert (Hdata :
    (if negb (Z.of_nat (length r.2) =? 0)
     then b ← fp_read (Z.of_nat (length r.2)); ret (VBytes b)
     else ret VNone) s1
    = (Ok (tagdata_of r.2), s3)).
  { subst s3 s2. destruct r.2 as [|p0 p] eqn:Hp.
    - reflexivity.
    - assert ((Z.of_nat (length (p0 :: p)) =? 0) = false) as ->
        by (apply Z.eqb_neq; cbn; lia).
      cbn [negb]. unfold mbind, M_bind, bind.
      rewrite <- Hp in *. rewrite (iptc_read_prefix _ _ _ Hpay).
      rewrite Hp. reflexivity. }
  assert (Hrest3 : remaining (fp s3) = rest
                   /\ s_pos (fp s3)
                      = (s_pos (fp s) + length (encode_record r))%nat
                   /\ info s3 = info s).
  { subst s3 s2. unfold encode_record. rewrite length_app.
    destruct r.2 as [|p0 p] eqn:Hp.
    - split; [exact Hpay |]. split; [subst s1; simpl; lia | done].
    - assert ((Z.of_nat (length (p0 :: p)) =? 0) = false) as ->
        by (apply Z.eqb_neq; cbn; lia).
      cbn [negb]. rewrite <- Hp in *. split; [| split; [| done]].
      + exact (remaining_iptc_advance _ _ _ Hpay).
      + rewrite Hp. subst s1. simpl. lia. }
  destruct Hrest3 as (Hrem & Hpos & Hinfo).
  exists (set_info (info_add r.1 (tagdata_of r.2) (info s3)) s3).
  split; [exact Hrem |]. split; [exact Hpos |].
  split; [cbn [info set_info]; by rewrite Hinfo |].
  intros fuel. cbn [open_fields].
  unfold mbind at 1 2, M_bind, bind, fp_tell, gets. rewrite Hfield.
  destruct Hr as (_ & Hmarker & _).
  rewrite bool_decide_eq_false_2 by exact Hmarker.
  unfold mbind at 1, M_bind, bind.
  lazymatch goal with
  | |- (let (_, _) := ?e in _) = _ =>
    replace e with (Ok (tagdata_of r.2), s3) by (symmetry; exact Hdata)
  end.
  reflexivity.
Qed.

(** The loop of [_open] over descriptive records followed by anything. *)
Lemma open_fields_prefix rs : forall pre s tail,
  Forall descriptive rs ->
  remaining (fp s) = concat (encode_record <$> rs) ++ tail ->
  (forall t, info s !! t = accumulated (payloads_of t pre)) ->
  exists s1,
    remaining (fp s1) = tail
    /\ s_pos (fp s1)
       = (s_pos (fp s) + length (concat (encode_record <$> rs)))%nat
    /\ (forall t, info s1 !! t = accumulated (payloads_of t (pre ++ rs)))
    /\ forall fuel, open_fields (length rs + fuel) s = open_fields fuel s1.
Proof.
  induction rs as [|r rs IH]; intros pre s tail Hrs Hrest Hinfo.
  - exists s. cbn. rewrite app_nil_r. repeat split; [done | lia | done].
  - inversion Hrs as [|? ? Hr Hrs']; subst.
    rewrite fmap_cons in *. cbn [concat] in *. rewrite <- app_assoc in Hrest.
    destruct (open_fields_step r _ s Hr Hrest)
      as (s1 & Hrem1 & Hpos1 & Hinfo1 & Hstep).
    destruct (IH (pre ++ [r]) s1 tail Hrs' Hrem1) as (s2 & Hrem & Hpos & Hi & Hrun).
    { rewrite Hinfo1. by apply info_add_accumulated. }
    exists s2. split; [exact Hrem |]. split; [| split].
    + rewrite Hpos, Hpos1, length_app. lia.
    + intros t. rewrite (Hi t). by rewrite <- app_assoc.
    + intros fuel. cbn [length Nat.add]. rewrite Hstep. apply Hrun.
Qed.

(** X11: the loop of [_open] stops at the first image data marker
    (8, 10): it returns the offset of the marker record and the size the
    marker announces, the mapping holds the records before the marker, and
    nothing behind the marker's header has been read. *)
Theorem open_fields_stops_at_marker rs b3 b4 rest s :
  Forall descriptive rs ->
  info s = ∅ ->
  0 <= b3 < 128 ->
  remaining (fp s)
  = concat (encode_record <$> rs) ++ [28; 8; 10; b3; b4] ++ rest ->
  exists s',
    open_fields (S (length (remaining (fp s)))) s
    = (Ok ((s_pos (fp s) + length (concat (encode_record <$> rs)))%nat,
           Some (8, 10), b3 * 256 + b4), s')
    /\ remaining (fp s') = rest
    /\ forall t, info s' !! t = accumulated (payloads_of t rs).
Proof.
  intros Hrs Hempty Hb Hrest.
  destruct (open_fields_prefix rs [] s _ Hrs Hrest)
    as (s1 & Hrem & Hpos & Hinfo & Hrun).
  { intros t. rewrite Hempty. apply lookup_empty. }
  exists (iptc_advance 5 s1).
  assert (Hfuel : S (length (remaining (fp s)))
                  = (length rs
                     + S (length (remaining (fp s)) - length rs))%nat).
  { rewrite Hrest, length_app. pose proof (length_records rs). lia. }
  rewrite Hfuel, Hrun. split; [| split].
  - cbn [open_fields]. unfold mbind at 1 2, M_bind, bind, fp_tell, gets.
    rewrite (field_short_form s1 8 10 b3 b4 rest Hrem ltac:(lia) Hb).
    rewrite bool_decide_eq_true_2 by done. by rewrite Hpos.
  - exact (remaining_iptc_advance [_; _; _; _; _] rest s1 Hrem).
  - exact Hinfo.
Qed.

Lemma payloads_of_absent t rs :
  Forall (fun r => r.1 <> t) rs -> payloads_of t rs = [].
Proof.
  intros H. unfold payloads_of.
  induction H as [|r rs Hr Hrs IH]; [done |].
  rewrite filter_cons. by destruct (decide (r.1 = t)).
Qed.

(** Without the record (3, 60) the mode cannot be derived. *)
Lemma open_attributes_no_layers offset (tag : option tag_t) fsize s :
  info s !! (3, 60) = None ->
  open_attributes offset tag fsize s = (Raise KeyError, s).
Proof.
  intros H. unfold open_attributes, mbind at 1, M_bind, bind at 1.
  unfold info_get at 1. cbn beta. unfold tag_t in *. by rewrite H.
Qed.

(** X12: for a JPEG or TIFF object whose IPTC block is a stream of
    descriptive records in short form without the record (3, 60),
    [getiptcinfo] returns the mapping of all the records: the [KeyError]
    that ends [_open] is the expected failure. *)
Theorem getiptcinfo_returns_mapping chunk im rs :
  locate chunk im = Ok (Some (concat (encode_record <$> rs))) ->
  Forall descriptive rs ->
  Forall (fun r => r.1 <> (3, 60)) rs ->
  exists m,
    getiptcinfo chunk im = Ok (Some m)
    /\ forall t, m !! t = accumulated (payloads_of t rs).
Proof.
  intros Hloc Hrs Hno.
  rewrite (getiptcinfo_located _ _ _ Hloc).
  pose proof (length_records rs) as Hlen.
  set (data := concat (encode_record <$> rs)) in *.
  destruct (open_fields_prefix rs [] (fake_image data) [] Hrs)
    as (s1 & Hrem & Hpos & Hinfo & Hrun).
  { cbn. by rewrite app_nil_r. }
  { intros t. apply lookup_empty. }
  exists (info s1). split; [| exact Hinfo].
  assert (Hnone : info s1 !! (3, 60) = None)
    by (rewrite Hinfo; cbn [app]; by rewrite (payloads_of_absent _ _ Hno)).
  assert (Hopen : _open (fake_image data)
                  = (Raise KeyError, iptc_advance 0 s1)).
  { unfold _open, mbind at 1 2, M_bind, bind, gets.
    change (remaining (fp (fake_image data))) with data.
    replace (S (length data))
      with (length rs + S (length data - length rs))%nat by lia.
    rewrite Hrun. cbn [open_fields].
    unfold mbind at 1 2, M_bind, bind, fp_tell, gets.
    rewrite (field_eof s1 Hrem). cbn iota. unfold ret.
    apply open_attributes_no_layers. exact Hnone. }
  unfold parse_chunk, try_except. rewrite Hopen, iptc_advance_0.
  reflexivity.
Qed.

End OpenMore.

(** Two keywords, then the marker of 300 bytes of image data. *)
Lemma open_fields_stops_at_marker_witness :
  let rs : list record_t := [((2, 25), [65]); ((2, 25), [66])] in
  let s := Iptc.fake_image
             (concat (encode_record <$> rs) ++ [28; 8; 10; 1; 44] ++ [7; 7]) in
  Forall descriptive rs
  /\ exists s',
       Iptc.open_fields (S (length (remaining (Iptc.fp s)))) s
       = (Ok (12%nat, Some (8, 10), 1 * 256 + 44), s')
       /\ remaining (Iptc.fp s') = [7; 7]
       /\ Iptc.info s' !! (2, 25)
          = Some (Iptc.VList [Iptc.VBytes [65]; Iptc.VBytes [66]]).
Proof.
  intros rs s.
  assert (Hd : Forall descriptive rs).
  { repeat constructor; cbn; (lia || discriminate). }
  assert (Hb : 0 <= 1 < 128) by lia.
  split; [exact Hd |].
  destruct (open_fields_stops_at_marker rs 1 44 [7; 7] s Hd eq_refl Hb eq_refl)
    as (s' & Hrun & Hrem & Hinfo).
  exists s'. split; [exact Hrun |]. split; [exact Hrem |].
  exact (Hinfo (2, 25)).
Defined.

(** The keywords of a TIFF file. *)
Lemma getiptcinfo_returns_mapping_witness :
  Forall descriptive keywords_stream
  /\ Forall (fun r : record_t => r.1 <> (3, 60)) keywords_stream
  /\ exists m,
       Iptc.getiptcinfo 33723
         (tiff_with (concat (encode_record <$> keywords_stream)))
       = Ok (Some m)
       /\ m !! (2, 25)
          = Some (Iptc.VList [Iptc.VBytes [65]; Iptc.VBytes [66]; Iptc.VBytes [67]])
       /\ m !! (2, 5) = Some (Iptc.VBytes [84; 105]).
Proof.
  assert (Hd : Forall descriptive keywords_stream).
  { repeat constructor; cbn; (lia || discriminate). }
  assert (Hn : Forall (fun r : record_t => r.1 <> (3, 60)) keywords_stream).
  { repeat constructor; discriminate. }
  split; [exact Hd |]. split; [exact Hn |].
  assert (Hloc : Iptc.locate 33723
                   (tiff_with (concat (encode_record <$> keywords_stream)))
                 = Ok (Some (concat (encode_record <$> keywords_stream))))
    by (vm_compute; reflexivity).
  destruct (getiptcinfo_returns_mapping 33723
              (tiff_with (concat (encode_record <$> keywords_stream)))
              keywords_stream Hloc Hd Hn) as (m & Hm & Hinfo).
  exists m. split; [exact Hm |].
  split; [exact (Hinfo (2, 25)) | exact (Hinfo (2, 5))].
Defined.

(** ** The IPTC plugin: [_open] never returns *)

Section OpenRaises.

Import Iptc.
Implicit Types (s : image) (t : tag_t).

Lemma keeps_ret {S A} (Q : S -> Prop) (a : A) : keeps Q (ret a).
Proof. intros st a' st' HQ H. injection H as _ <-. exact HQ. Qed.

Lemma keeps_lift {S A} (Q : S -> Prop) (r : result A) : keeps Q (lift r).
Proof. intros st a' st' HQ H. injection H as _ <-. exact HQ. Qed.

Lemma keeps_gets {S A} (Q : S -> Prop) (f : S -> A) : keeps Q (gets f).
Proof. intros st a' st' HQ H. injection H as _ <-. exact HQ. Qed.

Lemma keeps_bind {S A B} (Q : S -> Prop) (m : M S A) (k : A -> M S B) :
  keeps Q m -> (forall a, keeps Q (k a)) -> keeps Q (bind m k).
Proof.
  intros Hm Hk st b st' HQ. unfold bind.
  destruct (m st) as [[a|e] st1] eqn:Hrun; [| discriminate].
  intros H. exact (Hk a st1 b st' (Hm st a st1 HQ Hrun) H).
Qed.

Lemma keeps_info_get (Q : image -> Prop) key : keeps Q (info_get key).
Proof.
  intros st a st' HQ. unfold info_get.
  destruct (info st !! key); [| discriminate].
  intros H. injection H as _ <-. exact HQ.
Qed.

Lemma keeps_set_mode m : keeps holds_no_int (modify (set_mode m)).
Proof. intros st a st' HQ H. injection H as H. subst st'. exact HQ. Qed.

(** What raises, raises whatever would follow; what follows something
    that keeps [Q] and raises under [Q], raises. *)
Lemma fails_bind_l {S A B} (Q : S -> Prop) (m : M S A) (k : A -> M S B) :
  fails_on Q m -> fails_on Q (bind m k).
Proof.
  intros Hm st HQ. destruct (Hm st HQ) as (e & st' & Hrun).
  exists e, st'. unfold bind. by rewrite Hrun.
Qed.

Lemma fails_bind_r {S A B} (Q : S -> Prop) (m : M S A) (k : A -> M S B) :
  keeps Q m -> (forall a, fails_on Q (k a)) -> fails_on Q (bind m k).
Proof.
  intros Hm Hk st HQ. unfold bind.
  destruct (m st) as [[a|e] st1] eqn:Hrun; [| by eauto].
  exact (Hk a st1 (Hm st a st1 HQ Hrun)).
Qed.

(** On a mapping without integers [getint] raises: [KeyError] without
    the key, [TypeError] from [i] with it. *)
Lemma fails_getint key : fails_on holds_no_int (getint key).
Proof.
  intros st HQ. unfold getint, mbind, M_bind, bind, info_get.
  destruct (info st !! key) as [v|] eqn:Hv; [| by eauto].
  destruct v as [|n| |]; cbn; eauto.
  by destruct (HQ key n).
Qed.

Ltac keeps_tac :=
  unfold mbind, M_bind;
  repeat first
    [ apply keeps_bind; [| intros ?]
    | apply keeps_ret
    | apply keeps_lift
    | apply keeps_gets
    | apply keeps_info_get
    | apply keeps_set_mode
    | match goal with
      | |- keeps _ (if ?b then _ else _) => destruct b
      end ].

Lemma fails_open_attributes offset (tag : option tag_t) fsize :
  fails_on holds_no_int (open_attributes offset tag fsize).
Proof.
  unfold open_attributes, mbind, M_bind.
  do 7 (apply fails_bind_r; [by keeps_tac | intros ?]).
  apply fails_bind_l, fails_getint.
Qed.

(** Storing what the loop reads puts no integer into the mapping. *)
Lemma info_add_no_int t (d : value) (x : gmap tag_t value) :
  no_int x -> (forall n, d <> VInt n) -> no_int (info_add t d x).
Proof.
  intros Hx Hd t' n. unfold info_add.
  destruct (x !! t) as [[| | |l]|]; rewrite lookup_insert;
    case_decide; try apply Hx; try discriminate.
  intros Heq. injection Heq as Heq. exact (Hd n Heq).
Qed.

Lemma field_info s : info (field s).2 = info s.
Proof.
  unfold field, mbind, M_bind, bind, fp_read, lift, raise, ret.
  destruct (read 5 (fp s)) as [got f]. cbn [fst snd].
  repeat match goal with
         | |- context [if ?b then _ else _] => destruct b
         | |- context [getitem ?c ?k] => destruct (getitem c k)
         | |- context [read ?n ?f] => destruct (read n f)
         | |- context [i16 ?c] => destruct (i16 c)
         end; reflexivity.
Qed.

(** The loop of [_open] puts no integer into the mapping. *)
Lemma open_fields_no_int fuel : forall s x s',
  no_int (info s) -> open_fields fuel s = (Ok x, s') -> no_int (info s').
Proof.
  induction fuel as [|fuel IH]; intros s x s' Hs; [discriminate |].
  cbn [open_fields]. unfold mbind at 1 2, M_bind, bind, fp_tell, gets.
  pose proof (field_info s) as Hinfo.
  destruct (field s) as [[[[t|] size]|e] s1]; cbn [snd] in Hinfo;
    [| intros Heq; injection Heq as _ <-; by rewrite Hinfo | discriminate].
  case_bool_decide as Hm;
    [intros Heq; injection Heq as _ <-; by rewrite Hinfo |].
  unfold mbind, M_bind, bind, modify.
  destruct (negb (size =? 0)).
  - destruct (fp_read_left size s1) as (b & s2 & Hread & _).
    pose proof Hread as Hread'. unfold fp_read in Hread'.
    destruct (read size (fp s1)). injection Hread' as _ <-.
    rewrite Hread. apply IH. cbn [info set_info set_fp].
    apply info_add_no_int; [by rewrite Hinfo | discriminate].
  - cbn. apply IH. cbn [info set_info].
    apply info_add_no_int; [by rewrite Hinfo | discriminate].
Qed.

(** X13: [_open] never returns: on an object whose mapping holds no
    integer, as the empty one of a new object, it raises a Python
    exception, whatever the stream. *)
Theorem open_always_raises s :
  no_int (info s) ->
  exists e s', _open s = (Raise e, s') /\ e <> OutOfFuel.
Proof.
  intros Hs.
  assert (H : exists e s', _open s = (Raise e, s')).
  { unfold _open, mbind at 1 2, M_bind, bind, gets.
    destruct (open_fields _ s) as [[[[offset tag] fsize]|e] s1] eqn:Hrun;
      [| by eauto].
    apply fails_open_attributes. exact (open_fields_no_int _ _ _ _ Hs Hrun). }
  destruct H as (e & s' & H). exists e, s'. split; [exact H |].
  pose proof (open_total s) as Htotal. rewrite H in Htotal.
  cbn in Htotal. congruence.
Qed.

End OpenRaises.

(** The records of a 64 by 64 image, from an object with an empty
    mapping. *)
Lemma open_always_raises_witness :
  let s := Iptc.fake_image (concat (encode_record <$> dimension_stream)) in
  no_int (Iptc.info s)
  /\ exists e s', Iptc._open s = (Raise e, s') /\ e <> OutOfFuel.
Proof.
  intros s.
  assert (H : no_int (Iptc.info s)).
  { intros t n. cbn. rewrite lookup_empty. discriminate. }
  split; [exact H |]. exact (open_always_raises s H).
Defined.

(** ** The IPTC plugin: JPEG segments without an IPTC block *)

Section JpegMore.

Import Iptc.
Implicit Types (pre tail : bytes) (bs : list block_t).

Lemma getitem_out pre (x : bytes) j k :
  j = (length pre + k)%nat -> x !! k = None ->
  getitem (pre ++ x) j = Raise IndexError.
Proof.
  intros -> Hk. unfold getitem, bytes in *. rewrite lookup_app_r by lia.
  replace (length pre + k - length pre)%nat with k by lia. by rewrite Hk.
Qed.

(** The loop over blocks that are skipped, followed by anything. *)
Lemma resource_blocks_skip bs : forall pre tail fuel,
  Nat.odd (length pre) = false ->
  Forall skipped bs ->
  resource_blocks (length bs + fuel)
    (pre ++ concat (encode_block <$> bs) ++ tail) (length pre)
  = resource_blocks fuel
      (pre ++ concat (encode_block <$> bs) ++ tail)
      (length pre + length (concat (encode_block <$> bs))).
Proof.
  induction bs as [|b bs IH]; intros pre tail fuel Hpre Hbs.
  - cbn. by rewrite Nat.add_0_r.
  - inversion Hbs as [|? ? [Hb Hne] Hbs']; subst.
    destruct b as [[id nm] pl]. cbn [fst snd] in Hne.
    rewrite fmap_cons. cbn [concat length Nat.add].
    unfold encode_block at 1 3 5. cbn [fst snd].
    rewrite <- (app_assoc (resource_block id nm pl)).
    rewrite resource_blocks_step by done.
    rewrite (proj2 (Z.eqb_neq id 1028) Hne).
    rewrite length_app, Nat.add_assoc, <- (length_app pre).
    rewrite (app_assoc pre).
    apply IH; [| done].
    by rewrite length_app, Nat.odd_add, Hpre, odd_length_resource_block.
Qed.

Lemma jpeg_fuel bs tail :
  S (length (concat (encode_block <$> bs) ++ tail))
  = (length bs
     + S (length (concat (encode_block <$> bs) ++ tail) - length bs))%nat.
Proof. rewrite length_app. pose proof (length_blocks bs). lia. Qed.

(** X14: a JPEG object whose APP13 segment has the Photoshop signature
    and whole resource blocks, none of them with the id 0x0404, and then
    anything that does not start with the block marker, has no IPTC
    information: [getiptcinfo] returns [None]. *)
Theorem getiptcinfo_jpeg_no_iptc chunk (segments : gmap string bytes) bs tail :
  Forall skipped bs ->
  take 4 tail <> bim_sig ->
  segments !! "APP13"%string
  = Some (photoshop_sig ++ concat (encode_block <$> bs) ++ tail) ->
  getiptcinfo chunk (JpegImageFile (Some segments)) = Ok None.
Proof.
  intros Hbs Htail Hseg.
  unfold getiptcinfo, locate, jpeg_data. rewrite Hseg.
  change 14%nat with (length photoshop_sig).
  rewrite take_app_length, drop_app_length.
  unfold bytes_eqb at 1. rewrite bool_decide_eq_true_2 by done.
  rewrite jpeg_fuel.
  match goal with
  | |- context [resource_blocks (length bs + ?f) _ _] =>
    pose proof (resource_blocks_skip bs [] tail f eq_refl Hbs) as Hskip
  end.
  cbn [app length Nat.add] in Hskip. rewrite Hskip. clear Hskip.
  assert (Hslice : forall n,
            slice (concat (encode_block <$> bs) ++ tail)
              (length (concat (encode_block <$> bs)))
              (length (concat (encode_block <$> bs)) + n)
            = take n tail).
  { intros n. rewrite (slice_in _ tail _ _ 0 n) by lia.
    unfold slice. by rewrite Nat.sub_0_r. }
  cbn [app length Nat.add resource_blocks].
  rewrite Hslice. unfold bytes_eqb.
  by rewrite bool_decide_eq_false_2.
Qed.

(** X15: a resource block that ends right behind its two id bytes makes
    [getiptcinfo] raise [IndexError]: the name length is read with an
    index, and the [try] around the blocks names [AttributeError] and
    [KeyError] only. *)
Theorem getiptcinfo_jpeg_truncated chunk (segments : gmap string bytes)
    bs (a b : Z) :
  Forall skipped bs ->
  segments !! "APP13"%string
  = Some (photoshop_sig ++ concat (encode_block <$> bs)
            ++ bim_sig ++ [a; b]) ->
  getiptcinfo chunk (JpegImageFile (Some segments)) = Raise IndexError.
Proof.
  intros Hbs Hseg.
  unfold getiptcinfo, locate, jpeg_data. rewrite Hseg.
  change 14%nat with (length photoshop_sig).
  rewrite take_app_length, drop_app_length.
  unfold bytes_eqb at 1. rewrite bool_decide_eq_true_2 by done.
  rewrite jpeg_fuel.
  match goal with
  | |- context [resource_blocks (length bs + ?f) (_ ++ ?tl) _] =>
    pose proof (resource_blocks_skip bs [] tl f eq_refl Hbs) as Hskip
  end.
  cbn [app length Nat.add] in Hskip. rewrite Hskip. clear Hskip.
  cbn [app length Nat.add resource_blocks].
  set (pre := concat (encode_block <$> bs)).
  rewrite (slice_in pre _ _ _ 0 4) by lia.
  change (slice (bim_sig ++ [a; b]) 0 4) with bim_sig.
  unfold bytes_eqb. rewrite bool_decide_eq_true_2 by done.
  unfold Jpeg_i16.
  rewrite (getitem_in pre _ (length pre + 4 + 1) 5 b) by (lia || reflexivity).
  rewrite (getitem_in pre _ (length pre + 4) 4 a) by (lia || reflexivity).
  cbn [mbind result_bind rbind].
  rewrite (getitem_out pre _ (length pre + 4 + 2) 6) by (lia || reflexivity).
  reflexivity.
Qed.

End JpegMore.

(** The block 0x0402 alone, followed by two stray bytes. *)
Lemma getiptcinfo_jpeg_no_iptc_witness :
  let app := Iptc.photoshop_sig
             ++ concat (encode_block <$> [(1026, [65], [9; 9; 9])]) ++ [0; 0] in
  Forall skipped [(1026, [65], [9; 9; 9])]
  /\ take 4 [0; 0] <> Iptc.bim_sig
  /\ Iptc.getiptcinfo 33723
       (Iptc.JpegImageFile (Some {[ "APP13"%string := app ]}))
     = Ok None.
Proof.
  intros app.
  assert (Hs : Forall skipped [(1026, [65], [9; 9; 9])]).
  { repeat constructor; cbn; lia. }
  assert (Ht : take 4 [0; 0] <> Iptc.bim_sig) by discriminate.
  split; [exact Hs |]. split; [exact Ht |].
  exact (getiptcinfo_jpeg_no_iptc 33723 {[ "APP13"%string := app ]}
           [(1026, [65], [9; 9; 9])] [0; 0] Hs Ht eq_refl).
Defined.

(** The block 0x0402, then the marker and id of a block 0x0404 and the
    end of the segment. *)
Lemma getiptcinfo_jpeg_truncated_witness :
  let app := Iptc.photoshop_sig
             ++ concat (encode_block <$> [(1026, [65], [9; 9; 9])])
             ++ Iptc.bim_sig ++ [4; 4] in
  Forall skipped [(1026, [65], [9; 9; 9])]
  /\ Iptc.getiptcinfo 33723
       (Iptc.JpegImageFile (Some {[ "APP13"%string := app ]}))
     = Raise IndexError.
Proof.
  intros app.
  assert (Hs : Forall skipped [(1026, [65], [9; 9; 9])]).
  { repeat constructor; cbn; lia. }
  split; [exact Hs |].
  exact (getiptcinfo_jpeg_truncated 33723 {[ "APP13"%string := app ]}
           [(1026, [65], [9; 9; 9])] 4 4 Hs eq_refl).
Defined.

(** ** The IPTC plugin: what [load] stages *)

Section LoadMore.

Import Iptc.

Variable ImageFile_load : M world unit.
Variable mktemp : files_t -> string.
Variable open_ppm Image_open_load : string -> files_t -> result core_image.

Implicit Types (s : image) (w : world) (outfile : string) (p c rest : bytes)
  (payloads : list bytes).

Lemma iptc_advance_add n k s :
  iptc_advance k (iptc_advance n s) = iptc_advance (n + k) s.
Proof.
  unfold iptc_advance, set_fp. cbn. by rewrite advance_advance.
Qed.

(** [field] on the header of an image data record. *)
Lemma field_marker p rest s :
  Z.of_nat (length p) < 32768 ->
  remaining (fp s) = encode_record ((8, 10), p) ++ rest ->
  field s = (Ok (Some (8, 10), Z.of_nat (length p)), iptc_advance 5 s).
Proof.
  intros Hlen Hrest. unfold encode_record in Hrest. cbn [fst snd] in Hrest.
  set (n := Z.of_nat (length p)) in *.
  assert (Hn : 0 <= n < 32768) by lia.
  rewrite <- app_assoc in Hrest.
  rewrite (field_short_form s 8 10 (n `div` 256) (n `mod` 256)
             (p ++ rest) Hrest)
    by (lia || (Z.div_mod_to_equations; lia)).
  do 3 f_equal. Z.div_mod_to_equations. lia.
Qed.

(** The inner loop copies a whole payload to the writer, in pieces of at
    most 8192 bytes. *)
Lemma copy_payload_whole fuel : forall p rest o w,
  remaining (fp w.1) = p ++ rest ->
  (length p <= fuel)%nat ->
  copy_payload fuel o (Z.of_nat (length p)) w
  = (Ok (o ++ p), (iptc_advance (length p) w.1, w.2)).
Proof.
  assert (Hnone : forall (o : bytes) (w : world),
            (Ok o, w) = (Ok (o ++ []), (iptc_advance 0 w.1, w.2))).
  { intros o [s files]. cbn [fst snd]. by rewrite iptc_advance_0, app_nil_r. }
  induction fuel as [|fuel IH]; intros p rest o w Hrest Hlen.
  - destruct p; [| cbn in Hlen; lia]. cbn. apply Hnone.
  - destruct p as [|p0 p]; [cbn; apply Hnone |].
    set (q := p0 :: p) in *.
    assert (Hq : (1 <= length q)%nat) by (cbn; lia).
    cbn [copy_payload].
    assert ((Z.of_nat (length q) >? 0) = true) as ->
      by (rewrite Z.gtb_ltb; apply Z.ltb_lt; lia).
    set (k := Z.to_nat (Z.of_nat (length q) `min` 8192)).
    assert (Hkq : (1 <= k <= length q)%nat) by lia.
    replace (Z.of_nat (length q) `min` 8192) with (Z.of_nat k) by lia.
    clearbody k.
    unfold mbind at 1, M_bind, bind, self.
    rewrite iptc_read_take, Hrest.
    assert (Htake : take k (q ++ rest) = take k q)
      by (apply take_app_le; lia).
    rewrite Htake.
    assert (Hk : length (take k q) = k) by (rewrite length_take; lia).
    rewrite Hk.
    rewrite bool_decide_eq_false_2
      by (intros Hnil; rewrite Hnil in Hk; cbn in Hk; lia).
    replace (Z.of_nat (length q) - Z.of_nat k)
      with (Z.of_nat (length (drop k q))) by (rewrite length_drop; lia).
    rewrite (IH (drop k q) rest (file_write o (take k q))).
    + cbn [fst snd]. unfold file_write.
      rewrite iptc_advance_add, <- app_assoc, take_drop, length_drop.
      do 3 f_equal. lia.
    + cbn [fst snd].
      pose proof (remaining_iptc_advance (take k q) (drop k q ++ rest) w.1)
        as Hadv.
      rewrite Hk in Hadv. apply Hadv.
      by rewrite Hrest, app_assoc, take_drop.
    + rewrite length_drop. lia.
Qed.

Lemma length_image_data p payloads :
  length (image_data (p :: payloads))
  = (5 + length p + length (image_data payloads))%nat.
Proof.
  unfold image_data. rewrite fmap_cons. cbn [concat].
  rewrite length_app. unfold encode_record at 1. by rewrite length_app.
Qed.

(** The outer loop copies the payloads of the image data records up to
    the end of the stream. *)
Lemma stage_payloads payloads : forall o w fuel,
  short_payloads payloads ->
  remaining (fp w.1) = image_data payloads ->
  (length payloads < fuel)%nat ->
  stage fuel o w
  = (Ok (o ++ concat payloads),
     (iptc_advance (length (image_data payloads)) w.1, w.2)).
Proof.
  induction payloads as [|p payloads IH]; intros o w fuel Hshort Hrest Hfuel;
    (destruct fuel as [|fuel]; [cbn in Hfuel; lia |]).
  - cbn [stage]. unfold mbind at 1, M_bind, bind, self.
    rewrite (field_eof w.1 Hrest).
    rewrite bool_decide_eq_false_2 by discriminate.
    destruct w as [s files]. cbn [fst snd concat] in *.
    change (length (image_data [])) with 0%nat.
    by rewrite app_nil_r, !iptc_advance_0.
  - inversion Hshort as [|? ? Hp Hshort']; subst.
    unfold image_data in Hrest. rewrite fmap_cons in Hrest.
    cbn [concat] in Hrest. fold (image_data payloads) in Hrest.
    cbn [stage]. unfold mbind at 1, M_bind, bind, self.
    rewrite (field_marker p _ w.1 Hp Hrest).
    rewrite bool_decide_eq_true_2 by done.
    unfold mbind, M_bind, bind. rewrite Nat2Z.id.
    assert (Hpay : remaining (fp (iptc_advance 5 w.1))
                   = p ++ image_data payloads).
    { unfold encode_record in Hrest. rewrite <- app_assoc in Hrest.
      exact (remaining_iptc_advance [_; _; _; _; _] _ _ Hrest). }
    rewrite (copy_payload_whole (length p) p (image_data payloads) o
               (iptc_advance 5 w.1, w.2) Hpay (Nat.le_refl _)).
    rewrite (IH (o ++ p)); cbn [fst snd].
    + rewrite !iptc_advance_add, length_image_data.
      cbn [concat]. rewrite <- app_assoc. repeat f_equal; lia.
    + exact Hshort'.
    + exact (remaining_iptc_advance _ _ _ Hpay).
    + cbn in Hfuel. lia.
Qed.


End LoadMore.


(** ** The IPTC plugin: the mode *)

Section ModeFacts.

Import Iptc.
Implicit Types (s : image).

Lemma unchanged_ret {S A B} (f : S -> B) (a : A) : unchanged f (ret a).
Proof. by intros st. Qed.

Lemma unchanged_raise {S A B} (f : S -> B) e : unchanged f (raise e : M S A).
Proof. by intros st. Qed.

Lemma unchanged_lift {S A B} (f : S -> B) (r : result A) : unchanged f (lift r).
Proof. by intros st. Qed.

Lemma unchanged_gets {S A B} (f : S -> B) (g : S -> A) : unchanged f (gets g).
Proof. by intros st. Qed.

Lemma unchanged_modify {S B} (f : S -> B) (g : S -> S) :
  (forall st, f (g st) = f st) -> unchanged f (modify g).
Proof. intros H st. apply H. Qed.

Lemma unchanged_bind {S A B C} (f : S -> C) (m : M S A) (k : A -> M S B) :
  unchanged f m -> (forall a, unchanged f (k a)) -> unchanged f (bind m k).
Proof.
  intros Hm Hk st. unfold bind. specialize (Hm st).
  destruct (m st) as [[a|e] st1]; [| exact Hm].
  rewrite (Hk a st1). exact Hm.
Qed.

Lemma unchanged_try_except {S A B} (f : S -> B) (m h : M S A) catches :
  unchanged f m -> unchanged f h -> unchanged f (try_except m catches h).
Proof.
  intros Hm Hh st. unfold try_except. specialize (Hm st).
  destruct (m st) as [[a|e] st1]; [exact Hm |].
  destruct (catches e); [| exact Hm]. rewrite (Hh st1). exact Hm.
Qed.

Lemma unchanged_info_get {B} (f : image -> B) key : unchanged f (info_get key).
Proof. intros st. unfold info_get. by destruct (info st !! key). Qed.

Lemma bind_ok {S A B} (m : M S A) (k : A -> M S B) st a st' :
  m st = (Ok a, st') -> bind m k st = k a st'.
Proof. intros H. unfold bind. by rewrite H. Qed.

(** What follows [m] and leaves [f] alone does not show in [f]. *)
Lemma unchanged_after {S A B C} (f : S -> C) (m : M S A) (k : A -> M S B) st :
  (forall a, unchanged f (k a)) -> f (bind m k st).2 = f (m st).2.
Proof.
  intros Hk. unfold bind. destruct (m st) as [[a|e] st1]; [apply Hk | done].
Qed.

Ltac unchanged_tac :=
  unfold mbind, M_bind;
  repeat first
    [ apply unchanged_bind; [| intros ?]
    | apply unchanged_ret
    | apply unchanged_raise
    | apply unchanged_lift
    | apply unchanged_gets
    | apply unchanged_info_get
    | apply unchanged_try_except
    | apply unchanged_modify; reflexivity
    | match goal with
      | |- unchanged _ (if ?b then _ else _) => destruct b
      | |- unchanged _ (match ?o with Some _ => _ | None => _ end) =>
        destruct o
      end ].

(** X17: the mode that [_open] leaves on the object, whether or not it
    raises afterwards.  With the record (3, 60) holding the layers and
    the component flag in its first two bytes, and the channel index taken
    from the record (3, 65): one layer without the flag gives "L"; three
    layers with the flag give the letter of "RGB" at the index, four
    layers the letter of "CMYK"; any other number of layers leaves the
    mode as it was. *)
Theorem open_attributes_mode offset (tag : option tag_t) fsize s
    layers component rest id :
  info s !! (3, 60) = Some (VBytes (layers :: component :: rest)) ->
  channel_id (info s) = Some id ->
  let mode' := mode (open_attributes offset tag fsize s).2 in
  (layers = 1 -> component = 0 -> mode' = "L"%string)
  /\ (layers = 3 -> component <> 0 -> 0 <= id < 3 ->
      mode' = channel "RGB" id)
  /\ (layers = 4 -> component <> 0 -> 0 <= id < 4 ->
      mode' = channel "CMYK" id)
  /\ (layers <> 1 -> layers <> 3 -> layers <> 4 -> mode' = mode s).
Proof.
  intros H60 Hid mode'. subst mode'.
  assert (Hget : info_get (3, 60) s
                 = (Ok (VBytes (layers :: component :: rest)), s)).
  { unfold info_get. cbn beta. unfold tag_t in *. by rewrite H60. }
  assert (Hchan :
    (if bool_decide (is_Some (info s !! (3, 65)))
     then v ← info_get (3, 65); x ← lift (subscript v 0); lift (minus_int x 1)
     else ret (VInt 0)) s = (Ok (VInt id), s)).
  { unfold channel_id in Hid. unfold mbind, M_bind, bind, info_get.
    cbn beta.
    match type of Hid with
    | match ?o with _ => _ end = _ => destruct o as [v|] eqn:H65
    end.
    - rewrite bool_decide_eq_true_2 by eauto. cbn beta iota.
      destruct v as [| |[|b l]|]; try discriminate.
      injection Hid as <-.
      match goal with
      | |- context [match ?o with Some v => (Ok v, s) | None => _ end] =>
        replace o with (Some (VBytes (b :: l))) by (symmetry; exact H65)
      end.
      reflexivity.
    - rewrite bool_decide_eq_false_2
        by (intros [? Hsome]; discriminate Hsome).
      injection Hid as <-. reflexivity. }
  (* the layers, the flag and the channel index *)
  unfold open_attributes, mbind, M_bind.
  rewrite (bind_ok _ _ _ _ _ Hget).
  erewrite bind_ok by reflexivity.
  rewrite (bind_ok _ _ _ _ _ Hget).
  erewrite bind_ok by reflexivity.
  erewrite bind_ok by reflexivity.
  erewrite bind_ok by exact Hchan.
  (* what follows the mode leaves it alone *)
  rewrite unchanged_after by (intros ?; unchanged_tac).
  cbn [eq_int truthy].
  repeat split.
  - intros -> ->. reflexivity.
  - intros -> Hc Hrange.
    assert ((component =? 0) = false) as -> by (by apply Z.eqb_neq).
    cbn. assert (id = 0 \/ id = 1 \/ id = 2) as [-> | [-> | ->]] by lia;
      reflexivity.
  - intros -> Hc Hrange.
    assert ((component =? 0) = false) as -> by (by apply Z.eqb_neq).
    cbn.
    assert (id = 0 \/ id = 1 \/ id = 2 \/ id = 3)
      as [-> | [-> | [-> | ->]]] by lia; reflexivity.
  - intros H1 H3 H4.
    assert ((layers =? 1) = false) as -> by (by apply Z.eqb_neq).
    assert ((layers =? 3) = false) as -> by (by apply Z.eqb_neq).
    assert ((layers =? 4) = false) as -> by (by apply Z.eqb_neq).
    reflexivity.
Qed.

End ModeFacts.

(** Three layers, the flag set, the second channel: green. *)
Lemma open_attributes_mode_witness :
  Iptc.info green_image !! (3, 60) = Some (Iptc.VBytes [3; 1])
  /\ channel_id (Iptc.info green_image) = Some 1
  /\ Iptc.mode (Iptc.open_attributes 0 None 0 green_image).2 = "G"%string.
Proof.
  assert (Hc : 1 <> 0) by discriminate.
  assert (Hr : 0 <= 1 < 3) by lia.
  split; [reflexivity |]. split; [reflexivity |].
  exact (proj1 (proj2 (open_attributes_mode 0 None 0 green_image
                         3 1 [] 1 eq_refl eq_refl))
           eq_refl Hc Hr).
Defined.

(** ** The IPTC plugin: what [getiptcinfo] does with the errors of parsing *)

Section ParseErrors.

Import Iptc.
Implicit Types (s : image) (data rest tail : bytes) (rs : list record_t).

(** [field] on a stream that ends after one or two bytes. *)
Lemma field_truncated s :
  (1 <= length (remaining (fp s)) <= 2)%nat ->
  field s
  = (Raise IndexError, iptc_advance (length (remaining (fp s))) s).
Proof.
  intros Hlen. unfold field, mbind, M_bind, bind.
  pose proof (iptc_read_short 5 s) as Hr.
  change (Z.of_nat 5) with 5 in Hr. rewrite Hr by lia.
  destruct (remaining (fp s)) as [|b0 [|b1 [|b2 l]]];
    cbn in Hlen; try lia; reflexivity.
Qed.

(** What the handler of [getiptcinfo] does with the result of [_open]. *)
Lemma parse_chunk_caught data (r : result unit) s' :
  _open (fake_image data) = (r, s') ->
  r = Ok tt \/ r = Raise IndexError \/ r = Raise KeyError ->
  parse_chunk data = Ok (info s').
Proof.
  intros Hopen Hr. unfold parse_chunk, try_except. rewrite Hopen.
  destruct Hr as [-> | [-> | ->]]; reflexivity.
Qed.

(** C1, as the code has it: when [getiptcinfo] has found an IPTC block
    in a JPEG or TIFF object, parsing the block ends, and where it ends
    normally, with an [IndexError] or with a [KeyError], the caller gets
    the mapping built up to there; so a block of descriptive records that
    breaks off one or two bytes into the next header gives the mapping of
    these records.  But a first record with a bad marker byte or a record
    number outside 1..9 makes [getiptcinfo] raise [SyntaxError], and one
    with a size byte above 132 makes it raise [IOError]. *)
Theorem getiptcinfo_parse_errors chunk im data :
  locate chunk im = Ok (Some data) ->
  (exists (r : result unit) s',
     _open (fake_image data) = (r, s')
     /\ r <> Raise OutOfFuel
     /\ (r = Ok tt \/ r = Raise IndexError \/ r = Raise KeyError ->
         getiptcinfo chunk im = Ok (Some (info s'))))
  /\ (forall rs tail,
        Forall descriptive rs ->
        (1 <= length tail <= 2)%nat ->
        data = concat (encode_record <$> rs) ++ tail ->
        exists m,
          getiptcinfo chunk im = Ok (Some m)
          /\ forall t, m !! t = accumulated (payloads_of t rs))
  /\ (forall b0 b1 b2 rest,
        data = b0 :: b1 :: b2 :: rest ->
        b0 <> 28 \/ b1 < 1 \/ 9 < b1 ->
        getiptcinfo chunk im = Raise (SyntaxError "invalid IPTC/NAA file"))
  /\ (forall b1 b2 b3 rest,
        data = 28 :: b1 :: b2 :: b3 :: rest ->
        1 <= b1 <= 9 -> 132 < b3 ->
        getiptcinfo chunk im
        = Raise (IOError "illegal field length in IPTC/NAA file")).
Proof.
  intros Hloc. rewrite (getiptcinfo_located _ _ _ Hloc).
  split; [| split; [| split]].
  - destruct (_open (fake_image data)) as [r s'] eqn:Hopen.
    exists r, s'. split; [reflexivity |]. split.
    + pose proof (open_total (fake_image data)) as Htotal.
      by rewrite Hopen in Htotal.
    + intros Hr. by rewrite (parse_chunk_caught data r s' Hopen Hr).
  - intros rs tail Hrs Htail ->.
    pose proof (length_records rs) as Hlen.
    set (data := concat (encode_record <$> rs) ++ tail).
    destruct (open_fields_prefix rs [] (fake_image data) tail Hrs)
      as (s1 & Hrem & Hpos & Hinfo & Hrun).
    { reflexivity. }
    { intros t. apply lookup_empty. }
    exists (info s1). split; [| exact Hinfo].
    assert (Hopen : _open (fake_image data)
                    = (Raise IndexError, iptc_advance (length tail) s1)).
    { unfold _open, mbind at 1 2, M_bind, bind, gets.
      change (remaining (fp (fake_image data))) with data.
      assert (Hdata : (length rs <= length data)%nat)
        by (subst data; rewrite length_app; lia).
      replace (S (length data))
        with (length rs + S (length data - length rs))%nat by lia.
      rewrite Hrun. cbn [open_fields].
      unfold mbind at 1 2, M_bind, bind, fp_tell, gets.
      rewrite (field_truncated s1) by (rewrite Hrem; exact Htail).
      by rewrite Hrem. }
    rewrite (parse_chunk_caught data _ _ Hopen) by (right; by left).
    reflexivity.
  - intros b0 b1 b2 rest -> Hbad.
    rewrite (parse_chunk_raises _ (SyntaxError "invalid IPTC/NAA file")); [done | | done].
    apply open_raises_first. by apply (field_bad_syntax _ b0 b1 b2 rest).
  - intros b1 b2 b3 rest -> Hr Hb.
    rewrite (parse_chunk_raises _
               (IOError "illegal field length in IPTC/NAA file")); [done | | done].
    apply open_raises_first. by apply (field_bad_size _ b1 b2 b3 rest).
Qed.

End ParseErrors.

(** A TIFF object whose block breaks off inside the second header: the
    [IndexError] is caught and the caller gets the record read before it.
    One whose block has no record (3, 60): the [KeyError] is caught.
    Then one whose block starts with a bad marker, and one whose block has
    the size byte 133. *)
Lemma getiptcinfo_parse_errors_witness :
  Iptc.locate 33723 (tiff_with truncated_block) = Ok (Some truncated_block)
  /\ (Iptc._open (Iptc.fake_image truncated_block)).1 = Raise IndexError
  /\ (exists m,
        Iptc.getiptcinfo 33723 (tiff_with truncated_block) = Ok (Some m)
        /\ m !! (2, 25) = Some (Iptc.VBytes [65])
        /\ m !! (2, 5) = None)
  /\ (Iptc._open (Iptc.fake_image keyword_block)).1 = Raise KeyError
  /\ (exists m,
        Iptc.getiptcinfo 33723 (tiff_with keyword_block) = Ok (Some m)
        /\ m !! (2, 25) = Some (Iptc.VBytes [65]))
  /\ Iptc.locate 33723 (tiff_with bad_marker_block) = Ok (Some bad_marker_block)
  /\ Iptc.getiptcinfo 33723 (tiff_with bad_marker_block)
     = Raise (SyntaxError "invalid IPTC/NAA file")
  /\ Iptc.locate 33723 (tiff_with bad_size_block) = Ok (Some bad_size_block)
  /\ Iptc.getiptcinfo 33723 (tiff_with bad_size_block)
     = Raise (IOError "illegal field length in IPTC/NAA file").
Proof.
  assert (Hbad : 0 <> 28 \/ 2 < 1 \/ 9 < 2) by (left; discriminate).
  assert (Hr : 1 <= 2 <= 9) by lia.
  assert (Hb : 132 < 133) by lia.
  assert (Hd : Forall descriptive [((2, 25), [65]) : record_t]).
  { repeat constructor; cbn; (lia || discriminate). }
  assert (Htail : (1 <= length [28] <= 2)%nat) by (cbn; lia).
  assert (Hkey : (Iptc._open (Iptc.fake_image keyword_block)).1
                 = Raise KeyError) by (vm_compute; reflexivity).
  split; [reflexivity |]. split; [vm_compute; reflexivity |].
  split; [| split; [exact Hkey |];
            split; [| split; [reflexivity | split; [| split; [reflexivity |]]]]].
  - destruct (proj1 (proj2 (getiptcinfo_parse_errors 33723
                              (tiff_with truncated_block) truncated_block
                              eq_refl))
                [((2, 25), [65])] [28] Hd Htail eq_refl)
      as (m & Hm & Hinfo).
    exists m. split; [exact Hm |].
    split; [exact (Hinfo (2, 25)) | exact (Hinfo (2, 5))].
  - destruct (proj1 (getiptcinfo_parse_errors 33723
                       (tiff_with keyword_block) keyword_block eq_refl))
      as (r & s' & Hopen & _ & Hcaught).
    exists (Iptc.info s'). rewrite Hopen in Hkey. cbn [fst] in Hkey.
    split; [apply Hcaught; right; right; exact Hkey |].
    replace s' with (Iptc._open (Iptc.fake_image keyword_block)).2
      by (rewrite Hopen; reflexivity).
    vm_compute. reflexivity.
  - exact (proj1 (proj2 (proj2 (getiptcinfo_parse_errors 33723
                           (tiff_with bad_marker_block) bad_marker_block eq_refl)))
             0 2 5 [0; 0] eq_refl Hbad).
  - exact (proj2 (proj2 (proj2 (getiptcinfo_parse_errors 33723
                           (tiff_with bad_size_block) bad_size_block eq_refl)))
             2 5 133 [0] eq_refl Hr Hb).
Defined.

(** C1 as it is written fails: each of the three blocks it names makes
    [getiptcinfo] raise instead of returning a mapping or [None]. *)
Lemma getiptcinfo_parse_errors_counterexample :
  Iptc.getiptcinfo 33723 (tiff_with bad_marker_block)
  = Raise (SyntaxError "invalid IPTC/NAA file")
  /\ Iptc.getiptcinfo 33723 (tiff_with bad_record_block)
     = Raise (SyntaxError "invalid IPTC/NAA file")
  /\ Iptc.getiptcinfo 33723 (tiff_with bad_size_block)
     = Raise (IOError "illegal field length in IPTC/NAA file")
  /\ ~ (forall data, exists x,
          Iptc.getiptcinfo 33723 (tiff_with data) = Ok x).
Proof.
  repeat split; try reflexivity.
  intros H. destruct (H bad_marker_block) as [x Hx]. discriminate Hx.
Qed.
